(** * Monad testnet MCP tools: calldata builder and activity aggregator

    A shallow embedding of [src/index.ts]: the hand-written calldata of the
    [apriori-mon-stake] tool, the bounded block walks of
    [account-transaction-history] and [chain-statistics], and the report of
    [transaction-details].

    JavaScript strings are modelled as [string] (sequences of ASCII code
    units), [bigint] values as [Z], and the integer-valued [number]s of the
    handlers ([limit], [blocks], array lengths, loop counters) as [Z] or
    [nat].  The RPC node, the wallet and the clock are collaborators: they are
    a [Client] over an abstract world, and every call made to them is written
    to a trace.  Reports whose text needs a double or a calendar (the
    two-decimal average, ISO dates) are modelled by the values that fill
    their templates. *)

From Stdlib Require Import ZArith String Ascii List Lia Bool.
From stdpp Require Import base gmap strings list pretty.

Local Open Scope string_scope.
Local Open Scope Z_scope.
Local Open Scope list_scope.

#[local] Arguments String.append !_ _ : simpl nomatch.

(** ** JavaScript string primitives *)

Module Js.

Fixpoint repeat_char (c : ascii) (n : nat) : string :=
  match n with
  | O => ""
  | S n' => String c (repeat_char c n')
  end.

(** [s.padStart(targetLength, fill)] for a one-character [fill]; every call
    site passes ['0'].  A string already long enough is returned as is:
    nothing is cut off. *)
Definition padStart (targetLength : nat) (fill : ascii) (s : string) : string :=
  repeat_char fill (targetLength - String.length s) +:+ s.

(** [s.padEnd(targetLength, fill)], again for a one-character [fill]. *)
Definition padEnd (targetLength : nat) (fill : ascii) (s : string) : string :=
  s +:+ repeat_char fill (targetLength - String.length s).

(** [s.slice(start)] and [s.slice(0, stop)] for non-negative indices. *)
Fixpoint slice_from (start : nat) (s : string) : string :=
  match start, s with
  | O, _ => s
  | S _, "" => ""
  | S n, String _ s' => slice_from n s'
  end.

Fixpoint slice_to (stop : nat) (s : string) : string :=
  match stop, s with
  | O, _ => ""
  | S _, "" => ""
  | S n, String c s' => String c (slice_to n s')
  end.

Definition slice (start stop : nat) (s : string) : string :=
  slice_from start (slice_to stop s).

Fixpoint startsWith (p s : string) : bool :=
  match p, s with
  | "", _ => true
  | String _ _, "" => false
  | String c p', String d s' => Ascii.eqb c d && startsWith p' s'
  end.

Definition lower_char (c : ascii) : ascii :=
  let n := nat_of_ascii c in
  if (65 <=? n)%nat && (n <=? 90)%nat then ascii_of_nat (n + 32) else c.

Fixpoint toLowerCase (s : string) : string :=
  match s with
  | "" => ""
  | String c s' => String (lower_char c) (toLowerCase s')
  end.

(** Truthiness of an optional string: [undefined] and [""] are falsy. *)
Definition truthy (x : option string) : bool :=
  match x with
  | None => false
  | Some s => negb (String.eqb s "")
  end.

End Js.

(** ** Digits *)

Module Digits.

Definition digit_char (d : Z) : ascii :=
  if d <? 10 then ascii_of_nat (Z.to_nat (48 + d))
  else ascii_of_nat (Z.to_nat (87 + d)).

(** Value of a character as a digit of the given radix; upper and lower
    case letters are both accepted, as [BigInt] does for [0x] literals. *)
Definition digit_value (radix : Z) (c : ascii) : option Z :=
  let n := Z.of_nat (nat_of_ascii c) in
  let d := if (48 <=? n) && (n <=? 57) then n - 48
           else if (97 <=? n) && (n <=? 122) then n - 87
           else if (65 <=? n) && (n <=? 90) then n - 55
           else radix in
  if d <? radix then Some d else None.

Definition is_digit (radix : Z) (c : ascii) : bool :=
  match digit_value radix c with Some _ => true | None => false end.

Fixpoint all_digits (radix : Z) (s : string) : bool :=
  match s with
  | "" => true
  | String c s' => is_digit radix c && all_digits radix s'
  end.

(** Horner evaluation of a digit string, most significant digit first. *)
Fixpoint value_from (radix : Z) (acc : Z) (s : string) : option Z :=
  match s with
  | "" => Some acc
  | String c s' =>
      match digit_value radix c with
      | Some d => value_from radix (acc * radix + d) s'
      | None => None
      end
  end.

Definition value (radix : Z) (s : string) : option Z := value_from radix 0 s.

(** The [k] low digits of [n], most significant first. *)
Fixpoint digits (radix : Z) (k : nat) (n : Z) : string :=
  match k with
  | O => ""
  | S k' => String (digit_char ((n / radix ^ Z.of_nat k') mod radix))
                   (digits radix k' n)
  end.

(** Number of hexadecimal digits of a non-negative integer (one for zero). *)
Definition hex_length (n : Z) : nat :=
  if n =? 0 then 1%nat else S (Z.to_nat (Z.log2 n / 4)).

End Digits.

(** ** BigInt *)

Module BigInt.

(** [n.toString(16)]: lower-case digits, no leading zero, a minus sign for
    a negative value. *)
Definition toString16 (n : Z) : string :=
  if n <? 0 then String "-" (Digits.digits 16 (Digits.hex_length (- n)) (- n))
  else Digits.digits 16 (Digits.hex_length n) n.

(** [n.toString()], decimal. *)
Definition toString (n : Z) : string := pretty n.

Definition is_whitespace (c : ascii) : bool :=
  let n := nat_of_ascii c in
  ((9 <=? n)%nat && (n <=? 13)%nat) || (n =? 32)%nat.

Fixpoint trim_start (s : string) : string :=
  match s with
  | "" => ""
  | String c s' => if is_whitespace c then trim_start s' else s
  end.

Fixpoint trim_end (s : string) : string :=
  match s with
  | "" => ""
  | String c s' =>
      match trim_end s' with
      | "" => if is_whitespace c then "" else String c ""
      | t => String c t
      end
  end.

Definition nonempty_value (radix : Z) (s : string) : option Z :=
  if String.eqb s "" then None else Digits.value radix s.

(** [BigInt(text)] (the StringToBigInt grammar): surrounding white space is
    dropped; the empty string is zero; then either a decimal literal with
    an optional sign, or an unsigned [0x], [0o] or [0b] literal.  [None]
    stands for the [SyntaxError] thrown on anything else.  The white space
    dropped here is that of ASCII (tab to carriage return, and the space);
    the language also drops the white space beyond ASCII (no-break space,
    byte order mark, line and paragraph separators, ...), so this is
    [BigInt] on ASCII text only. *)
Definition of_string (text : string) : option Z :=
  let s := trim_end (trim_start text) in
  if String.eqb s "" then Some 0
  else if Js.startsWith "0x" s || Js.startsWith "0X" s
  then nonempty_value 16 (Js.slice_from 2 s)
  else if Js.startsWith "0o" s || Js.startsWith "0O" s
  then nonempty_value 8 (Js.slice_from 2 s)
  else if Js.startsWith "0b" s || Js.startsWith "0B" s
  then nonempty_value 2 (Js.slice_from 2 s)
  else if Js.startsWith "-" s
  then Z.opp <$> nonempty_value 10 (Js.slice_from 1 s)
  else if Js.startsWith "+" s
  then nonempty_value 10 (Js.slice_from 1 s)
  else nonempty_value 10 s.

End BigInt.

(** ** Faults

    What a [catch] clause receives.  The handlers only ever read
    [error.message], so a fault is modelled by what produced it; the text of
    the message belongs to the library or the runtime that raised it. *)

Inductive Fault : Type :=
| InvalidDecimalNumberError (value : string)   (* viem, [parseUnits] *)
| SyntaxError (text : string)                  (* [BigInt(text)] *)
| TypeError                                    (* [BigInt(undefined)] *)
| RangeError                                   (* [toISOString] of an invalid date *)
| UpstreamError (message : string).            (* RPC node or wallet *)

Definition result (A : Type) : Type := Fault + A.

Definition result_bind {A B} (r : result A) (k : A -> result B) : result B :=
  match r with
  | inl e => inl e
  | inr a => k a
  end.

(** ** Unit conversion

    [parseUnits] and [formatUnits] are functions of the viem library, which
    [index.ts] imports and calls with 18 (amounts) and 9 (gas price)
    decimals.  They are transcribed from the library, statement by statement;
    [parseUnits] does its arithmetic on digit strings and [BigInt], except
    for one rounding step that goes through a double. *)

Module Units.
Section ParseUnits.

(** [Math.round(Number(text))]: the one floating-point step of
    [parseUnits], taken on fractions with more digits than [decimals]. *)
Variable Math_round_Number : string -> Z.

(** The regular-expression test at the head of [parseUnits]: an optional
    minus sign, digits, an optional dot, digits, and nothing else. *)
Fixpoint digits_dot_digits (s : string) : bool :=
  match s with
  | "" => true
  | String c s' =>
      if Ascii.eqb c "." then Digits.all_digits 10 s'
      else Digits.is_digit 10 c && digits_dot_digits s'
  end.

Definition is_decimal_number (value : string) : bool :=
  if Js.startsWith "-" value
  then digits_dot_digits (Js.slice_from 1 value)
  else digits_dot_digits value.

(** [let [integer, fraction = '0'] = value.split('.')]. *)
Fixpoint split_dot (value : string) : string * option string :=
  match value with
  | "" => ("", None)
  | String c s' =>
      if Ascii.eqb c "." then ("", Some (fst (split_dot s')))
      else let '(i, f) := split_dot s' in (String c i, f)
  end.

(** [fraction.replace] of the trailing run of zeros by the empty string. *)
Fixpoint trim_trailing_zeros (s : string) : string :=
  match s with
  | "" => ""
  | String c s' =>
      match trim_trailing_zeros s' with
      | "" => if Ascii.eqb c "0" then "" else String c ""
      | t => String c t
      end
  end.

Definition to_bigint (text : string) : result Z :=
  match BigInt.of_string text with
  | Some n => inr n
  | None => inl (SyntaxError text)
  end.

Definition parseUnits (value : string) (decimals : nat) : result Z :=
  if negb (is_decimal_number value) then inl (InvalidDecimalNumberError value)
  else
    let '(integer, fraction) := split_dot value in
    let fraction := default "0" fraction in
    let negative := Js.startsWith "-" integer in
    let integer := if negative then Js.slice_from 1 integer else integer in
    let fraction := trim_trailing_zeros fraction in
    result_bind
      (match decimals with
       | O =>
           result_bind
             (if Math_round_Number ("." +:+ fraction) =? 1
              then result_bind (to_bigint integer)
                     (fun i => inr (BigInt.toString (i + 1)))
              else inr integer)
             (fun integer => inr (integer, ""))
       | S decimals' =>
           if (decimals <? String.length fraction)%nat then
             let left := Js.slice 0 decimals' fraction in
             let unit := Js.slice decimals' decimals fraction in
             let right := Js.slice_from decimals fraction in
             let rounded := Math_round_Number (unit +:+ "." +:+ right) in
             result_bind
               (if 9 <? rounded
                then result_bind (to_bigint left)
                       (fun l => inr (Js.padStart (String.length left + 1) "0"
                                        (BigInt.toString (l + 1) +:+ "0")))
                else inr (left +:+ BigInt.toString rounded))
               (fun fraction =>
                  result_bind
                    (if (decimals <? String.length fraction)%nat
                     then result_bind (to_bigint integer)
                            (fun i => inr (BigInt.toString (i + 1),
                                           Js.slice_from 1 fraction))
                     else inr (integer, fraction))
                    (fun '(integer, fraction) =>
                       inr (integer, Js.slice 0 decimals fraction)))
           else inr (integer, Js.padEnd decimals "0" fraction)
       end)
      (fun '(integer, fraction) =>
         to_bigint ((if negative then "-" else "") +:+ integer +:+ fraction)).

End ParseUnits.
End Units.

(** ** Chain data and the collaborators *)

Record Transaction : Type := {
  tx_hash : string;
  tx_from : string;
  tx_to : option string;        (* [null] for a contract creation *)
  tx_value : Z;
  tx_gasPrice : option Z
}.

Record Block : Type := {
  block_number : Z;
  block_timestamp : Z;
  block_transactions : list Transaction
}.

Record Receipt : Type := {
  receipt_status : string;      (* ["success"] or ["reverted"] *)
  receipt_gasUsed : Z;
  receipt_blockNumber : Z
}.

Record TransactionRequest : Type := {
  req_to : string;
  req_data : string;
  req_value : Z;
  req_gas : Z
}.

(** One entry per call that leaves the handler: to the RPC node, to the
    wallet, or to the diagnostic stream. *)
Inductive Event : Type :=
| GetTransactionCount (address : string)
| GetBlockNumber
| GetBlock (blockNumber : Z) (includeTransactions : bool)
| GetTransaction (hash : string)
| GetTransactionReceipt (hash : string)
| GetChainId
| GetGasPrice
| SendTransaction (request : TransactionRequest)
| ConsoleError (text : string) (error : Fault).

(** [publicClient], [walletClient] and [Date]: each operation reads the
    current world and leaves a new one; [inl] is a rejected promise. *)
Class Client (World : Type) : Type := {
  getTransactionCount : string -> World -> result Z * World;
  getBlockNumber : World -> result Z * World;
  getBlock : Z -> bool -> World -> result Block * World;
  getTransaction : string -> World -> result Transaction * World;
  getTransactionReceipt : string -> World -> result Receipt * World;
  getChainId : World -> result Z * World;
  getGasPrice : World -> result Z * World;
  sendTransaction : TransactionRequest -> World -> result string * World;
  Date_now : World -> Z           (* milliseconds since the epoch *)
}.

(** ** The handler monad: state, trace and faults

    [locals] holds the variables a handler declares outside its [try] blocks
    and mutates inside them, so that what was written before a fault is still
    there in the [catch]. *)

Record Store (World L : Type) : Type := mkStore {
  world : World;
  trace : list Event;
  locals : L
}.

Arguments mkStore {World L} _ _ _.
Arguments world {World L} _.
Arguments trace {World L} _.
Arguments locals {World L} _.

Definition M (World L A : Type) : Type :=
  Store World L -> result A * Store World L.

Section Monad.
Context {World L : Type}.

Definition ret {A} (a : A) : M World L A := fun s => (inr a, s).

Definition throw {A} (e : Fault) : M World L A := fun s => (inl e, s).

Definition bind {A B} (m : M World L A) (k : A -> M World L B) : M World L B :=
  fun s =>
    match m s with
    | (inr a, s') => k a s'
    | (inl e, s') => (inl e, s')
    end.

Definition try_catch {A} (body : M World L A) (handler : Fault -> M World L A)
  : M World L A :=
  fun s =>
    match body s with
    | (inr a, s') => (inr a, s')
    | (inl e, s') => handler e s'
    end.

Definition lift {A} (r : result A) : M World L A := fun s => (r, s).

Definition get : M World L L := fun s => (inr (locals s), s).

Definition put (l : L) : M World L unit :=
  fun s => (inr tt, mkStore (world s) (trace s) l).

Definition emit (e : Event) : M World L unit :=
  fun s => (inr tt, mkStore (world s) (trace s ++ [e]) (locals s)).

(** An awaited call: the event is logged, the collaborator answers. *)
Definition await {A} (e : Event) (op : World -> result A * World) : M World L A :=
  fun s =>
    let '(r, w) := op (world s) in
    (r, mkStore w (trace s ++ [e]) (locals s)).

Definition now `{Client World} : M World L Z :=
  fun s => (inr (Date_now (world s)), s).

End Monad.

Notation "'do' x <- m ; k" := (bind m (fun x => k))
  (at level 10, x name, m at level 100, k at level 200).
Notation "'exec' m ; k" := (bind m (fun _ => k))
  (at level 10, m at level 100, k at level 200).

(** ** apriori-mon-stake: the calldata builder *)

Inductive Operation : Type := deposit | unstake | redeem.

Definition operation_text (operation : Operation) : string :=
  match operation with
  | deposit => "deposit"
  | unstake => "unstake"
  | redeem => "redeem"
  end.

Definition contractAddress : string := "0xb2f82D0f38dc453D596Ad40A37799446Cc89274A".
Definition EXPLORER_URL : string := "https://testnet.monadexplorer.com/tx/".
Definition gasLimitStake : Z := 500000.
Definition gasLimitUnstake : Z := 800000.
Definition gasLimitClaim : Z := 800000.

Record StakeCall : Type := {
  data : string;
  value : Z;
  gasLimit : Z;
  operationName : string
}.

(** The fixed table of the three calls: the selector each operation is
    meant to carry and the number of words after it.  The handler below
    writes its own literals; the statements compare the two. *)
Definition selector (operation : Operation) : string :=
  match operation with
  | deposit => "0x6e553f65"
  | unstake => "0x7d41c86e"
  | redeem => "0x492e47d2"
  end.

Definition wordCount (operation : Operation) : nat :=
  match operation with
  | deposit => 2
  | unstake => 3
  | redeem => 4
  end.

(** Size in bytes of a [0x]-prefixed hex string; [None] when it is not a
    whole number of hexadecimal byte pairs. *)
Definition byte_length (hex : string) : option nat :=
  let digits := Js.slice_from 2 hex in
  if Js.startsWith "0x" hex
     && Digits.all_digits 16 digits
     && Nat.even (String.length digits)
  then Some (String.length digits / 2)%nat
  else None.

(** The argument of [walletClient.sendTransaction]. *)
Definition submission (call : StakeCall) : TransactionRequest :=
  {| req_to := contractAddress;
     req_data := data call;
     req_value := value call;
     req_gas := gasLimit call |}.

(** A [0x]-prefixed address of 20 bytes. *)
Definition is_address (a : string) : bool :=
  Js.startsWith "0x" a
  && (String.length (Js.slice_from 2 a) =? 40)%nat
  && Digits.all_digits 16 (Js.slice_from 2 a).

Section Stake.

Variable Math_round_Number : string -> Z.
(** [error instanceof Error ? error.message : String(error)]. *)
Variable error_message : Fault -> string.
(** [senderAccount.address], derived from the configured key by the wallet
    library. *)
Variable senderAccount_address : string.

(** [parseUnits(amount!, 18)]; an [undefined] that slipped through would
    fail the library's format test as the text ["undefined"]. *)
Definition parse_amount (amount : option string) : result Z :=
  match amount with
  | Some a => Units.parseUnits Math_round_Number a 18
  | None => inl (InvalidDecimalNumberError "undefined")
  end.

(** [BigInt(requestId!)]. *)
Definition parse_requestId (requestId : option string) : result Z :=
  match requestId with
  | Some r => Units.to_bigint r
  | None => inl TypeError
  end.

(** The [switch (operation)] of the handler. *)
Definition stake_call (operation : Operation) (amount requestId : option string)
  : result StakeCall :=
  match operation with
  | deposit =>
      result_bind (parse_amount amount) (fun depositValue =>
      let depositSelector := "0x6e553f65" in
      let depositAmountHex := Js.padStart 64 "0" (BigInt.toString16 depositValue) in
      let depositAddressHex := Js.padStart 64 "0" (Js.slice_from 2 senderAccount_address) in
      inr {| data := depositSelector +:+ depositAmountHex +:+ depositAddressHex;
             value := depositValue;
             gasLimit := gasLimitStake;
             operationName := "Deposit" |})
  | unstake =>
      result_bind (parse_amount amount) (fun unstakeValue =>
      let unstakeSelector := "0x7d41c86e" in
      let unstakeAmountHex := Js.padStart 64 "0" (BigInt.toString16 unstakeValue) in
      let unstakeAddressHex1 := Js.padStart 64 "0" (Js.slice_from 2 senderAccount_address) in
      let unstakeAddressHex2 := Js.padStart 64 "0" (Js.slice_from 2 senderAccount_address) in
      inr {| data := unstakeSelector +:+ unstakeAmountHex +:+ unstakeAddressHex1
                       +:+ unstakeAddressHex2;
             value := 0;
             gasLimit := gasLimitUnstake;
             operationName := "Unstake" |})
  | redeem =>
      let redeemSelector := "0x492e47d2" in
      let offsetHex := Js.padStart 64 "0" "40" in
      let addressHex := Js.padStart 64 "0" (Js.slice_from 2 senderAccount_address) in
      let flagHex := Js.padStart 64 "0" "01" in
      result_bind (parse_requestId requestId) (fun requestIdBigInt =>
      let requestIdHex := Js.padStart 64 "0" (BigInt.toString16 requestIdBigInt) in
      inr {| data := redeemSelector +:+ offsetHex +:+ addressHex +:+ flagHex
                       +:+ requestIdHex;
             value := 0;
             gasLimit := gasLimitClaim;
             operationName := "Redeem" |})
  end.

Definition successMessage (operation : Operation) (amount requestId : option string)
  : string :=
  match operation with
  | deposit => "Deposited " +:+ default "undefined" amount +:+ " MON"
  | unstake => "Unstaked " +:+ default "undefined" amount +:+ " MON"
  | redeem => "Redeemed MON for request id " +:+ default "undefined" requestId
  end.

Definition needs_amount (operation : Operation) : bool :=
  match operation with
  | deposit | unstake => true
  | redeem => false
  end.

Definition needs_requestId (operation : Operation) : bool :=
  match operation with
  | redeem => true
  | _ => false
  end.

(** The parameter the chosen operation cannot do without, and the number
    that is written into the calldata for it. *)
Definition required_parameter (operation : Operation)
    (amount requestId : option string) : option string :=
  if needs_amount operation then amount else requestId.

Definition stake_argument (operation : Operation)
    (amount requestId : option string) : result Z :=
  match operation with
  | deposit | unstake => parse_amount amount
  | redeem => parse_requestId requestId
  end.

Context {World : Type} `{Client World}.

(** The tool handler; its value is the text of the one content block it
    returns. *)
Definition apriori_mon_stake (operation : Operation) (amount requestId : option string)
  : M World unit string :=
  try_catch
    (if needs_amount operation && negb (Js.truthy amount) then
       ret ("Error: Amount is required for " +:+ operation_text operation
              +:+ " operation.")
     else if needs_requestId operation && negb (Js.truthy requestId) then
       ret "Error: Request ID is required for redeem operation."
     else
       do call <- lift (stake_call operation amount requestId);
       let request := submission call in
       do hash <- await (SendTransaction request) (sendTransaction request);
       ret (operationName call +:+ " operation successful: "
              +:+ successMessage operation amount requestId
              +:+ ". Tx: " +:+ EXPLORER_URL +:+ hash))
    (fun error =>
       ret ("Apriori " +:+ operation_text operation +:+ " failed: "
              +:+ error_message error)).

End Stake.

(** ** account-transaction-history: the address walk *)

(** One entry of [transactions].  [rec_timestamp] is the time value, in
    milliseconds, of the [Date] whose ISO text the source stores. *)
Record ActivityRecord : Type := {
  rec_hash : string;
  rec_blockNumber : Z;
  rec_from : string;
  rec_to : option string;
  rec_value : string;
  rec_timestamp : Z;
  rec_status : string;
  rec_gasUsed : string
}.

(** The variables of the handler that outlive its inner [try] block. *)
Record HistoryVars : Type := {
  transactions : list ActivityRecord;
  processed : gset string;
  currentBlock : Z
}.

(** What the handler returns: the fields that fill the report template, or
    the text of the top-level failure. *)
Inductive HistoryResult : Type :=
| HistoryReport (address : string) (sentTxs : Z) (found : list ActivityRecord)
| HistoryFailure (text : string).

Definition blocksToSearch : nat := 10.

(** [currentBlock = currentBlock - 1n]. *)
Definition step_back (v : HistoryVars) : HistoryVars :=
  {| transactions := transactions v;
     processed := processed v;
     currentBlock := currentBlock v - 1 |}.

(** [formatUnits(value, decimals)]: the decimal text of [value / 10^decimals],
    without trailing zeros. *)
Definition formatUnits (value : Z) (decimals : nat) : string :=
  let display := BigInt.toString value in
  let negative := Js.startsWith "-" display in
  let display := if negative then Js.slice_from 1 display else display in
  let display := Js.padStart decimals "0" display in
  let integer := Js.slice 0 (String.length display - decimals) display in
  let fraction := Js.slice_from (String.length display - decimals) display in
  let fraction := Units.trim_trailing_zeros fraction in
  (if negative then "-" else "")
    +:+ (if String.eqb integer "" then "0" else integer)
    +:+ (if String.eqb fraction "" then "" else "." +:+ fraction).

(** [new Date(Number(seconds) * 1000).toISOString()]: the time value, or a
    [RangeError] beyond the range of [Date]. *)
Definition toISOString (seconds : Z) : result Z :=
  let ms := seconds * 1000 in
  if Z.abs ms <=? 8640000000000000 then inr ms else inl RangeError.

Section History.

Variable error_message : Fault -> string.
Context {World : Type} `{Client World}.

Variable address : string.
Variable limit : Z.

Definition formattedAddress : string := Js.toLowerCase address.

Definition push_record (r : ActivityRecord) : M World HistoryVars unit :=
  do v <- get;
  put {| transactions := transactions v ++ [r];
         processed := processed v;
         currentBlock := currentBlock v |}.

Definition mark_processed (hash : string) : M World HistoryVars unit :=
  do v <- get;
  put {| transactions := transactions v;
         processed := {[ hash ]} ∪ processed v;
         currentBlock := currentBlock v |}.

Definition previous_block : M World HistoryVars unit :=
  do v <- get;
  put (step_back v).

(** The test [txFrom === formattedAddress || txTo === formattedAddress]. *)
Definition involves_address (tx : Transaction) : bool :=
  let txFrom := Js.toLowerCase (tx_from tx) in
  let txTo := if Js.truthy (tx_to tx)
              then Js.toLowerCase <$> tx_to tx else None in
  String.eqb txFrom formattedAddress
  || bool_decide (txTo = Some formattedAddress).

(** The object pushed onto [transactions].  Its [blockNumber] is
    [Number(block.number)], a double: the integer itself up to 2^53 in
    absolute value, which is where [rec_blockNumber] stands for it. *)
Definition activity_record (block : Block) (tx : Transaction)
    (receipt : Receipt) (timestamp : Z) : ActivityRecord :=
  {| rec_hash := tx_hash tx;
     rec_blockNumber := block_number block;
     rec_from := tx_from tx;
     rec_to := tx_to tx;
     rec_value := if tx_value tx =? 0 then "0 MON"
                  else formatUnits (tx_value tx) 18 +:+ " MON";
     rec_timestamp := timestamp;
     rec_status := receipt_status receipt;
     rec_gasUsed := if receipt_gasUsed receipt =? 0 then "Unknown"
                    else BigInt.toString (receipt_gasUsed receipt) |}.

(** [for (const tx of block.transactions)]. *)
Fixpoint process_transactions (block : Block) (txs : list Transaction)
  : M World HistoryVars unit :=
  match txs with
  | [] => ret tt
  | tx :: rest =>
      do v <- get;
      if bool_decide (tx_hash tx ∈ processed v)
         || (limit <=? Z.of_nat (length (transactions v)))
      then process_transactions block rest
      else
        if involves_address tx
        then
          do receipt <- await (GetTransactionReceipt (tx_hash tx))
                              (getTransactionReceipt (tx_hash tx));
          do timestamp <- lift (toISOString (block_timestamp block));
          exec push_record (activity_record block tx receipt timestamp);
          exec mark_processed (tx_hash tx);
          process_transactions block rest
        else process_transactions block rest
  end.

(** What the inner [try] guards: fetch one block, scan it, step back. *)
Definition history_block : M World HistoryVars unit :=
  do v <- get;
  do block <- await (GetBlock (currentBlock v) true)
                    (getBlock (currentBlock v) true);
  exec process_transactions block (block_transactions block);
  previous_block.

(** The body of the outer loop, with its [catch]. *)
Definition history_iteration : M World HistoryVars unit :=
  try_catch history_block
    (fun blockError =>
       do v <- get;
       exec emit (ConsoleError
                    ("Error processing block " +:+ BigInt.toString (currentBlock v) +:+ ":")
                    blockError);
       previous_block).

(** [for (let i = 0; i < blocksToSearch && transactions.length < limit; i++)],
    with [remaining] standing for [blocksToSearch - i]. *)
Fixpoint history_loop (remaining : nat) : M World HistoryVars unit :=
  match remaining with
  | O => ret tt
  | S remaining' =>
      do v <- get;
      if Z.of_nat (length (transactions v)) <? limit
      then exec history_iteration; history_loop remaining'
      else ret tt
  end.

Definition account_transaction_history : M World HistoryVars HistoryResult :=
  try_catch
    (do sentTxs <- await (GetTransactionCount address) (getTransactionCount address);
     do latestBlock <- await GetBlockNumber getBlockNumber;
     exec put {| transactions := []; processed := ∅; currentBlock := latestBlock |};
     exec history_loop blocksToSearch;
     do v <- get;
     ret (HistoryReport address sentTxs (transactions v)))
    (fun error =>
       ret (HistoryFailure ("Error fetching transaction history: "
                              +:+ error_message error))).

End History.

(** ** chain-statistics: the network walk *)

Record StatsVars : Type := {
  totalTransactions : Z;
  uniqueAddresses : gset string
}.

(** The JavaScript quotient [dividend / divisor] of two integer-valued
    numbers, as it is handed to [toFixed(2)].  The operands are kept; the
    double-precision division and its two-decimal text are the runtime's. *)
Record Quotient : Type := {
  dividend : Z;
  divisor : Z
}.

(** The fields that fill the statistics template. *)
Record StatsReport : Type := {
  stat_chainId : Z;
  stat_currentBlock : Z;
  stat_gasPrice : string;
  stat_blocks : Z;
  stat_totalTransactions : Z;
  stat_uniqueAddresses : nat;
  stat_averageTransactionsPerBlock : Quotient
}.

Inductive StatsResult : Type :=
| StatsFound (report : StatsReport)
| StatsFailure (text : string).

Section Statistics.

Variable error_message : Fault -> string.
Context {World : Type} `{Client World}.

Variable blocks : Z.

(** [blockWithTxs.transactions.forEach(...)]. *)
Definition add_addresses (txs : list Transaction) (seen : gset string) : gset string :=
  foldl (fun seen tx =>
           let seen := {[ tx_from tx ]} ∪ seen in
           if Js.truthy (tx_to tx)
           then {[ default "" (tx_to tx) ]} ∪ seen
           else seen)
        seen txs.

(** What the [try] of one iteration guards. *)
Definition stats_block (latestBlock : Z) (i : Z) : M World StatsVars unit :=
  let blockNumber := latestBlock - i in
  do blockInfo <- await (GetBlock blockNumber false) (getBlock blockNumber false);
  do blockWithTxs <- await (GetBlock blockNumber true) (getBlock blockNumber true);
  do v <- get;
  let txCount := Z.of_nat (length (block_transactions blockWithTxs)) in
  put {| totalTransactions := totalTransactions v + txCount;
         uniqueAddresses :=
           add_addresses (block_transactions blockWithTxs) (uniqueAddresses v) |}.

Definition stats_iteration (latestBlock : Z) (i : Z) : M World StatsVars unit :=
  try_catch (stats_block latestBlock i)
    (fun error => emit (ConsoleError "Error processing block:" error)).

(** [for (let i = 0; i < Math.min(blocks, 10); i++)]: the guard is the
    source's; [fuel] only makes the recursion structural, and ten units of
    it are never used up before the guard fails. *)
Fixpoint stats_loop (fuel : nat) (latestBlock : Z) (i : Z) : M World StatsVars unit :=
  match fuel with
  | O => ret tt
  | S fuel' =>
      if i <? Z.min blocks 10
      then exec stats_iteration latestBlock i; stats_loop fuel' latestBlock (i + 1)
      else ret tt
  end.

Definition chain_statistics : M World StatsVars StatsResult :=
  try_catch
    (do latestBlock <- await GetBlockNumber getBlockNumber;
     exec put {| totalTransactions := 0; uniqueAddresses := ∅ |};
     exec stats_loop 10 latestBlock 0;
     do chainId <- await GetChainId getChainId;
     do gasPrice <- await GetGasPrice getGasPrice;
     do v <- get;
     ret (StatsFound
            {| stat_chainId := chainId;
               stat_currentBlock := latestBlock;
               stat_gasPrice := formatUnits gasPrice 9;
               stat_blocks := blocks;
               stat_totalTransactions := totalTransactions v;
               stat_uniqueAddresses := size (uniqueAddresses v);
               stat_averageTransactionsPerBlock :=
                 {| dividend := totalTransactions v; divisor := blocks |} |}))
    (fun error =>
       ret (StatsFailure ("Error fetching chain statistics: "
                            +:+ error_message error))).

End Statistics.

(** The sum the walk is meant to accumulate, for a chain whose answer for
    the [i]-th block of the window is [chain i]: the transaction counts of the
    blocks that could be fetched, over [n] blocks from offset [i] on. *)
Definition transaction_count (answer : result Block) : Z :=
  match answer with
  | inr block => Z.of_nat (length (block_transactions block))
  | inl _ => 0
  end.

Fixpoint window_total (chain : Z -> result Block) (n : nat) (i : Z) : Z :=
  match n with
  | O => 0
  | S n' => transaction_count (chain i) + window_total chain n' (i + 1)
  end.

Definition is_block_fetch (e : Event) : bool :=
  match e with
  | GetBlock _ _ => true
  | _ => false
  end.

(** ** transaction-details *)

(** The fields that fill the details template.  [det_timestamp] is the time
    value of [new Date()], which the template prints through [toISOString]
    and labels as current server time. *)
Record DetailsReport : Type := {
  det_hash : string;
  det_status : string;
  det_blockNumber : Z;
  det_from : string;
  det_to : string;
  det_value : string;
  det_gasUsed : string;
  det_gasPrice : string;
  det_timestamp : Z
}.

Inductive DetailsResult : Type :=
| DetailsFound (report : DetailsReport)
| DetailsFailure (text : string).

(** The values interpolated into the template, in the order of its lines;
    [timestamp] is what [new Date()] reads while the text is built. *)
Definition details_report (hash : string) (transaction : Transaction)
    (receipt : Receipt) (timestamp : Z) : DetailsReport :=
  let value := if tx_value transaction =? 0 then "0"
               else formatUnits (tx_value transaction) 18 in
  let gasUsed := if receipt_gasUsed receipt =? 0 then "Unknown"
                 else BigInt.toString (receipt_gasUsed receipt) in
  let status := if String.eqb (receipt_status receipt) "success"
                then "Success" else "Failed" in
  {| det_hash := hash;
     det_status := status;
     det_blockNumber := receipt_blockNumber receipt;
     det_from := tx_from transaction;
     det_to := if Js.truthy (tx_to transaction)
               then default "" (tx_to transaction)
               else "Contract Creation";
     det_value := value;
     det_gasUsed := gasUsed;
     det_gasPrice := formatUnits (default 0 (tx_gasPrice transaction)) 9;
     det_timestamp := timestamp |}.

(** A report with its clock reading blanked: what remains comes from the
    chain. *)
Definition chain_fields (r : DetailsReport) : DetailsReport :=
  {| det_hash := det_hash r;
     det_status := det_status r;
     det_blockNumber := det_blockNumber r;
     det_from := det_from r;
     det_to := det_to r;
     det_value := det_value r;
     det_gasUsed := det_gasUsed r;
     det_gasPrice := det_gasPrice r;
     det_timestamp := 0 |}.

Section Details.

Variable error_message : Fault -> string.
Context {World : Type} `{Client World}.

Definition transaction_details (hash : string) : M World unit DetailsResult :=
  try_catch
    (do transaction <- await (GetTransaction hash) (getTransaction hash);
     do receipt <- await (GetTransactionReceipt hash) (getTransactionReceipt hash);
     do timestamp <- now;
     ret (DetailsFound (details_report hash transaction receipt timestamp)))
    (fun error =>
       ret (DetailsFailure ("Failed to retrieve transaction details for hash: "
                              +:+ hash +:+ ". Error: " +:+ error_message error))).

End Details.

(** ** Predicates used in the statements *)

Definition hashes (found : list ActivityRecord) : list string :=
  map rec_hash found.

(** The de-duplication invariant of the address walk: no hash is reported
    twice, and every reported hash is in [processed]. *)
Definition deduplicated (v : HistoryVars) : Prop :=
  NoDup (hashes (transactions v))
  /\ forall h, h ∈ hashes (transactions v) -> h ∈ processed v.

Definition block_fetches (events : list Event) : nat :=
  length (filter (fun e => is_block_fetch e = true) events).

(** What a scan of transactions may do to the store: the block pointer
    stays, records are only appended, never beyond [limit], the trace only
    grows and by no block fetch, and de-duplication is kept. *)
Definition scan_extends {World : Type} (limit : Z)
    (s s' : Store World HistoryVars) : Prop :=
  currentBlock (locals s') = currentBlock (locals s)
  /\ (exists more, transactions (locals s') = transactions (locals s) ++ more)
  /\ (exists events, trace s' = trace s ++ events /\ block_fetches events = 0%nat)
  /\ (deduplicated (locals s) -> deduplicated (locals s'))
  /\ Z.of_nat (length (transactions (locals s')))
     <= Z.max limit (Z.of_nat (length (transactions (locals s)))).

(** One turn of the outer loop, seen from outside: it ends normally, moves
    to the next older block after exactly one block fetch, and keeps what was
    found. *)
Definition walk_step {World : Type} (limit : Z)
    (s s' : Store World HistoryVars) : Prop :=
  currentBlock (locals s') = currentBlock (locals s) - 1
  /\ (exists more, transactions (locals s') = transactions (locals s) ++ more)
  /\ (exists events,
        trace s' = trace s ++ GetBlock (currentBlock (locals s)) true :: events
        /\ block_fetches events = 0%nat)
  /\ (deduplicated (locals s) -> deduplicated (locals s'))
  /\ Z.of_nat (length (transactions (locals s')))
     <= Z.max limit (Z.of_nat (length (transactions (locals s)))).

(** ** Sample collaborators

    A small chain on which the statements below are exercised: three blocks
    with transactions, every other block unavailable, one receipt that cannot
    be fetched, a wallet that accepts every request, and a world that is the
    reading of the clock. *)

Module Sample.

(** A stand-in for the wallet's address: any [0x] and 40 hexadecimal digits
    will do, the statements use nothing else of it. *)
Definition address : string := "0x00000000000000000000000000000000000000a1".
Definition other : string := "0x00000000000000000000000000000000000000B2".

Definition round (_ : string) : Z := 0.

Definition message (e : Fault) : string :=
  match e with
  | UpstreamError m => m
  | InvalidDecimalNumberError v => "invalid decimal number " +:+ v
  | SyntaxError t => "cannot convert " +:+ t
  | TypeError => "type error"
  | RangeError => "invalid time value"
  end.

Definition transfer : Transaction :=
  {| tx_hash := "0x01"; tx_from := address; tx_to := Some other;
     tx_value := 5; tx_gasPrice := Some 52000000000 |}.

Definition self_transfer : Transaction :=
  {| tx_hash := "0x02"; tx_from := "0x00000000000000000000000000000000000000A1";
     tx_to := Some address; tx_value := 0; tx_gasPrice := None |}.

Definition creation : Transaction :=
  {| tx_hash := "0x03"; tx_from := other; tx_to := None;
     tx_value := 1500000000000000000; tx_gasPrice := None |}.

Definition incoming : Transaction :=
  {| tx_hash := "0x04"; tx_from := other; tx_to := Some address;
     tx_value := 1; tx_gasPrice := None |}.

Definition block_at (n : Z) : result Block :=
  if n =? 100 then
    inr {| block_number := 100; block_timestamp := 1700000000;
           block_transactions := [transfer; self_transfer; creation] |}
  else if n =? 98 then
    inr {| block_number := 98; block_timestamp := 1699999998;
           block_transactions := [transfer; creation; incoming] |}
  else if n =? 97 then
    inr {| block_number := 97; block_timestamp := 1699999997;
           block_transactions := [creation] |}
  else inl (UpstreamError "block not found").

Definition receipt : Receipt :=
  {| receipt_status := "success"; receipt_gasUsed := 21000;
     receipt_blockNumber := 100 |}.

Definition receipt_of (hash : string) : result Receipt :=
  if String.eqb hash "0x04" then inl (UpstreamError "receipt not found")
  else inr receipt.

Definition transaction_of (hash : string) : result Transaction :=
  if String.eqb hash "0x01" then inr transfer
  else inl (UpstreamError "transaction not found").

#[global] Instance client : Client Z := {|
  getTransactionCount := fun _ w => (inr 3, w);
  getBlockNumber := fun w => (inr 100, w);
  getBlock := fun n _ w => (block_at n, w);
  getTransaction := fun hash w => (transaction_of hash, w);
  getTransactionReceipt := fun hash w => (receipt_of hash, w);
  getChainId := fun w => (inr 10143, w);
  getGasPrice := fun w => (inr 52000000000, w);
  sendTransaction := fun _ w => (inr "0xf00d", w);
  Date_now := fun w => w
|}.

Definition start {L : Type} (clock : Z) (l : L) : Store Z L := mkStore clock [] l.

Definition no_history : HistoryVars :=
  {| transactions := []; processed := ∅; currentBlock := 0 |}.

Definition no_stats : StatsVars :=
  {| totalTransactions := 0; uniqueAddresses := ∅ |}.

(** What the sample chain yields for [address] with the default limit: the
    transfer it sent and the transfer it sent to itself, once each. *)
Definition history_found : list ActivityRecord :=
  [ {| rec_hash := "0x01";
       rec_blockNumber := 100;
       rec_from := "0x00000000000000000000000000000000000000a1";
       rec_to := Some "0x00000000000000000000000000000000000000B2";
       rec_value := "0.000000000000000005 MON";
       rec_timestamp := 1700000000000;
       rec_status := "success";
       rec_gasUsed := "21000" |};
    {| rec_hash := "0x02";
       rec_blockNumber := 100;
       rec_from := "0x00000000000000000000000000000000000000A1";
       rec_to := Some "0x00000000000000000000000000000000000000a1";
       rec_value := "0 MON";
       rec_timestamp := 1700000000000;
       rec_status := "success";
       rec_gasUsed := "21000" |} ].

(** Statistics of the sample chain over five blocks, two of which cannot be
    fetched. *)
Definition stats_report : StatsReport :=
  {| stat_chainId := 10143;
     stat_currentBlock := 100;
     stat_gasPrice := "52";
     stat_blocks := 5;
     stat_totalTransactions := 7;
     stat_uniqueAddresses := 3;
     stat_averageTransactionsPerBlock := {| dividend := 7; divisor := 5 |} |}.

End Sample.

(** ** monad-network-info *)

(** The values fetched for the network report; the other lines of its
    template are constants of the chain configuration. *)
Record NetworkReport : Type := {
  net_chainId : Z;
  net_currentBlock : Z;
  net_gasPrice : string
}.

Inductive NetworkResult : Type :=
| NetworkFound (report : NetworkReport)
| NetworkFailure (text : string).

Section Network.

Variable error_message : Fault -> string.
Context {World : Type} `{Client World}.

Definition monad_network_info : M World unit NetworkResult :=
  try_catch
    (do blockNumber <- await GetBlockNumber getBlockNumber;
     do chainId <- await GetChainId getChainId;
     do gasPrice <- await GetGasPrice getGasPrice;
     ret (NetworkFound {| net_chainId := chainId;
                          net_currentBlock := blockNumber;
                          net_gasPrice := formatUnits gasPrice 9 |}))
    (fun error =>
       ret (NetworkFailure ("Failed to retrieve Monad network information. Error: "
                              +:+ error_message error))).

End Network.

(** ** swap-mon: the token table *)

Module Swap.

(** [toUpperCase] on the letters a to z; every other character is kept. *)
Definition upper_char (c : ascii) : ascii :=
  let n := nat_of_ascii c in
  if (97 <=? n)%nat && (n <=? 122)%nat then ascii_of_nat (n - 32) else c.

Fixpoint toUpperCase (s : string) : string :=
  match s with
  | "" => ""
  | String c s' => String (upper_char c) (toUpperCase s')
  end.

Definition TOKEN_ADDRESSES : gmap string string :=
  <[ "USDC" := "0xf817257fed379853cDe0fa4F97AB987181B1E5Ea" ]>
  (<[ "USDT" := "0x88b8E2161DEDC77EF4ab7585569D2415a1C1055D" ]>
  (<[ "DAK" := "0x0F0BDEbF0F83cD1EE3974779Bcb7315f9808c714" ]>
  (<[ "CHOG" := "0xE0590015A873bF326bd645c3E1266d4db41C4E6B" ]>
  (<[ "YAKI" := "0xfe140e1dCe99Be9F4F15d657CD9b7BF622270C50" ]> ∅)))).

(** [finalTokenAddress]: the table entry when the upper-cased input is one
    of its keys, the input itself otherwise.  The test is JavaScript's [in],
    which also sees the names inherited from [Object.prototype]; each of
    those has a lower-case letter, so no upper-cased text is one of them and
    the test is the lookup among the table's own keys. *)
Definition finalTokenAddress (tokenAddress : string) : string :=
  match TOKEN_ADDRESSES !! toUpperCase tokenAddress with
  | Some listed => listed
  | None => tokenAddress
  end.

End Swap.

(** ** Further predicates used in the statements *)

(** The block numbers asked of the node, in the order of the requests, for
    one value of [includeTransactions]. *)
Definition requested_blocks (includeTransactions : bool) (events : list Event)
  : list Z :=
  omap (fun e =>
          match e with
          | GetBlock n flag =>
              if Bool.eqb flag includeTransactions then Some n else None
          | _ => None
          end)
       events.

(** [count] block numbers going down from [head - offset]. *)
Definition block_window (head offset : Z) (count : nat) : list Z :=
  map (fun j => head - (offset + Z.of_nat j)) (seq 0 count).

(** A record whose sender or recipient is the address, letter case aside. *)
Definition record_involves (address : string) (r : ActivityRecord) : Prop :=
  Js.toLowerCase (rec_from r) = Js.toLowerCase address
  \/ exists recipient,
      rec_to r = Some recipient
      /\ Js.toLowerCase recipient = Js.toLowerCase address.

Definition block_numbers (found : list ActivityRecord) : list Z :=
  map rec_blockNumber found.

(** The store update of one push onto [transactions] with its
    [processed.add]. *)
Definition record_pushed (v : HistoryVars) (r : ActivityRecord) : HistoryVars :=
  {| transactions := transactions v ++ [r];
     processed := {[ rec_hash r ]} ∪ processed v;
     currentBlock := currentBlock v |}.

(** The bookkeeping of the statistics walk: the count is not negative and
    there are at most two addresses per transaction counted. *)
Definition counted (v : StatsVars) : Prop :=
  0 <= totalTransactions v
  /\ Z.of_nat (size (uniqueAddresses v)) <= 2 * totalTransactions v.

(** A node that numbers a block as it was asked for it. *)
Definition answers_as_asked {World : Type} `{Client World} : Prop :=
  forall (n : Z) (flag : bool) (w : World) (block : Block),
    fst (getBlock n flag w) = inr block -> block_number block = n.

(** Numbers that never go up along the list. *)
Definition descending (l : list Z) : Prop :=
  forall (i j : nat) (a b : Z),
    (i <= j)%nat -> l !! i = Some a -> l !! j = Some b -> b <= a.

(** Requests that hand a transaction to the wallet. *)
Definition is_submission (e : Event) : bool :=
  match e with
  | SendTransaction _ => true
  | _ => false
  end.

Definition read_only (events : list Event) : Prop :=
  Forall (fun e => is_submission e = false) events.

(** The head block of the sample chain. *)
Definition sample_head : Block :=
  {| block_number := 100; block_timestamp := 1700000000;
     block_transactions :=
       [Sample.transfer; Sample.self_transfer; Sample.creation] |}.

(** A node whose only block carries a time stamp beyond the range of
    [Date], with one transaction sent by [Sample.address]. *)
Module Distant.

Definition block : Block :=
  {| block_number := 7; block_timestamp := 8640000000001;
     block_transactions := [Sample.transfer; Sample.incoming] |}.

#[global] Instance client : Client unit := {|
  getTransactionCount := fun _ w => (inr 1, w);
  getBlockNumber := fun w => (inr 7, w);
  getBlock := fun _ _ w => (inr block, w);
  getTransaction := fun _ w => (inr Sample.transfer, w);
  getTransactionReceipt := fun _ w => (inr Sample.receipt, w);
  getChainId := fun w => (inr 10143, w);
  getGasPrice := fun w => (inr 52000000000, w);
  sendTransaction := fun _ w => (inr "0xf00d", w);
  Date_now := fun _ => 0
|}.

Definition start : Store unit HistoryVars :=
  mkStore tt [] {| transactions := []; processed := ∅; currentBlock := 7 |}.

End Distant.

(** ** send-mon *)

(** The request object of send-mon names the recipient and the value only.
    The two fields it leaves to the wallet are written here as the empty
    data and a gas limit of 0, which no request of the staking tool
    carries. *)
Definition transfer_request (to : string) (value : Z) : TransactionRequest :=
  {| req_to := to; req_data := ""; req_value := value; req_gas := 0 |}.

Section SendMon.

Variable Math_round_Number : string -> Z.
Variable error_message : Fault -> string.
Context {World : Type} `{Client World}.

(** The tool handler; its value is the text of the one content block it
    returns. *)
Definition send_mon (to amount : string) : M World unit string :=
  try_catch
    (do value <- lift (Units.parseUnits Math_round_Number amount 18);
     let request := transfer_request to value in
     do hash <- await (SendTransaction request) (sendTransaction request);
     ret ("Sent " +:+ amount +:+ " MON to " +:+ to
            +:+ ". Transaction hash: " +:+ hash))
    (fun error =>
       ret ("Failed to send MON. Error: " +:+ error_message error)).

End SendMon.

(** Text of ASCII characters only. *)
Fixpoint ascii_text (s : string) : bool :=
  match s with
  | "" => true
  | String c s' => (nat_of_ascii c <? 128)%nat && ascii_text s'
  end.

(** A node and a wallet that answer a given number of requests and refuse
    every later one; the world is the number of answers left. *)
Module Rationed.

Definition answer {A : Type} (a : A) (left : nat) : result A * nat :=
  match left with
  | O => (inl (UpstreamError "request refused"), O)
  | S left' => (inr a, left')
  end.

#[global] Instance client : Client nat := {|
  getTransactionCount := fun _ => answer 3;
  getBlockNumber := answer 100;
  getBlock := fun _ _ => answer sample_head;
  getTransaction := fun _ => answer Sample.transfer;
  getTransactionReceipt := fun _ => answer Sample.receipt;
  getChainId := answer 10143;
  getGasPrice := answer 52000000000;
  sendTransaction := fun _ => answer "0xf00d";
  Date_now := fun left => Z.of_nat left
|}.

Definition start {L : Type} (left : nat) (l : L) : Store nat L :=
  mkStore left [] l.

End Rationed.

(** * Properties *)

(** ** Strings and digits *)

Section StringFacts.

Lemma length_append (s t : string) :
  String.length (s +:+ t) = (String.length s + String.length t)%nat.
Proof. induction s as [|c s IH]; simpl; [reflexivity | now rewrite IH]. Qed.

Lemma append_assoc (s t u : string) : (s +:+ t) +:+ u = s +:+ t +:+ u.
Proof. induction s as [|c s IH]; simpl; [reflexivity | now rewrite IH]. Qed.

Lemma append_empty_r (s : string) : s +:+ "" = s.
Proof. induction s as [|c s IH]; simpl; [reflexivity | now rewrite IH]. Qed.

Lemma length_repeat_char (c : ascii) (n : nat) :
  String.length (Js.repeat_char c n) = n.
Proof. induction n as [|n IH]; simpl; [reflexivity | now rewrite IH]. Qed.

Lemma length_padStart (n : nat) (c : ascii) (s : string) :
  String.length (Js.padStart n c s) = Nat.max n (String.length s).
Proof. unfold Js.padStart. rewrite length_append, length_repeat_char. lia. Qed.

Lemma padStart_long (n : nat) (c : ascii) (s : string) :
  (n <= String.length s)%nat -> Js.padStart n c s = s.
Proof.
  intros Hle. unfold Js.padStart.
  replace (n - String.length s)%nat with 0%nat by lia. reflexivity.
Qed.

Lemma length_digits (radix : Z) (k : nat) (n : Z) :
  String.length (Digits.digits radix k n) = k.
Proof. induction k as [|k IH]; simpl; [reflexivity | now rewrite IH]. Qed.

Lemma all_digits_append (radix : Z) (s t : string) :
  Digits.all_digits radix (s +:+ t)
  = Digits.all_digits radix s && Digits.all_digits radix t.
Proof.
  induction s as [|c s IH]; simpl; [reflexivity |].
  now rewrite IH, andb_assoc.
Qed.

Lemma digit_value_zero (radix : Z) :
  0 < radix -> Digits.digit_value radix "0" = Some 0.
Proof.
  intros Hr. unfold Digits.digit_value.
  change (Z.of_nat (nat_of_ascii "0")) with 48.
  change (48 - 48) with 0. cbn [Z.leb Z.compare Pos.compare Pos.compare_cont andb].
  destruct (0 <? radix) eqn:E; [reflexivity | lia].
Qed.

Lemma all_digits_zeros (radix : Z) (n : nat) :
  0 < radix -> Digits.all_digits radix (Js.repeat_char "0" n) = true.
Proof.
  intros Hr. induction n as [|n IH]; simpl; [reflexivity |].
  rewrite IH, andb_true_r. unfold Digits.is_digit.
  now rewrite digit_value_zero.
Qed.

Lemma digit_value_digit_char (d : Z) :
  0 <= d < 16 -> Digits.digit_value 16 (Digits.digit_char d) = Some d.
Proof.
  intros Hd.
  assert (Hcases : d = 0 \/ d = 1 \/ d = 2 \/ d = 3 \/ d = 4 \/ d = 5 \/ d = 6
                   \/ d = 7 \/ d = 8 \/ d = 9 \/ d = 10 \/ d = 11 \/ d = 12
                   \/ d = 13 \/ d = 14 \/ d = 15) by lia.
  repeat (destruct Hcases as [-> | Hcases]; [reflexivity |]).
  subst d. reflexivity.
Qed.

Lemma all_digits_digits (k : nat) (n : Z) :
  Digits.all_digits 16 (Digits.digits 16 k n) = true.
Proof.
  induction k as [|k IH]; simpl; [reflexivity |].
  rewrite IH, andb_true_r. unfold Digits.is_digit.
  rewrite digit_value_digit_char; [reflexivity |].
  apply Z.mod_pos_bound. lia.
Qed.

Lemma value_from_append (radix acc : Z) (s t : string) :
  Digits.value_from radix acc (s +:+ t)
  = match Digits.value_from radix acc s with
    | Some a => Digits.value_from radix a t
    | None => None
    end.
Proof.
  revert acc. induction s as [|c s IH]; intros acc; simpl; [reflexivity |].
  destruct (Digits.digit_value radix c); [apply IH | reflexivity].
Qed.

Lemma value_from_zeros (radix acc : Z) (n : nat) :
  0 < radix ->
  Digits.value_from radix acc (Js.repeat_char "0" n)
  = Some (acc * radix ^ Z.of_nat n).
Proof.
  intros Hr. revert acc. induction n as [|n IH]; intros acc.
  - simpl. f_equal. lia.
  - cbn [Js.repeat_char Digits.value_from].
    rewrite digit_value_zero, IH by lia. f_equal.
    rewrite Nat2Z.inj_succ, Z.pow_succ_r by lia. ring.
Qed.

Lemma value_from_digits (acc : Z) (k : nat) (n : Z) :
  0 <= n ->
  Digits.value_from 16 acc (Digits.digits 16 k n)
  = Some (acc * 16 ^ Z.of_nat k + n mod 16 ^ Z.of_nat k).
Proof.
  intros Hn. revert acc. induction k as [|k IH]; intros acc.
  - simpl. rewrite Z.mod_1_r. f_equal. lia.
  - cbn [Digits.digits Digits.value_from].
    rewrite digit_value_digit_char by (apply Z.mod_pos_bound; lia).
    rewrite IH. f_equal.
    rewrite Nat2Z.inj_succ, Z.pow_succ_r by lia.
    set (p := 16 ^ Z.of_nat k).
    assert (Hp : 0 < p) by (apply Z.pow_pos_nonneg; lia).
    replace (16 * p) with (p * 16) by ring.
    rewrite (Z.rem_mul_r n p 16) by lia.
    ring.
Qed.

Lemma hex_length_bound (n : Z) :
  0 <= n -> n < 16 ^ Z.of_nat (Digits.hex_length n).
Proof.
  intros Hn. unfold Digits.hex_length.
  destruct (n =? 0) eqn:E.
  - apply Z.eqb_eq in E. subst n. reflexivity.
  - apply Z.eqb_neq in E.
    assert (Hpos : 0 < n) by lia.
    pose proof (Z.log2_spec n Hpos) as [_ Hlt].
    pose proof (Z.log2_nonneg n) as Hl.
    rewrite Nat2Z.inj_succ, Z2Nat.id by (apply Z.div_pos; lia).
    replace 16 with (2 ^ 4) by reflexivity.
    rewrite <- Z.pow_mul_r by (try lia; apply Z.le_le_succ_r, Z.div_pos; lia).
    eapply Z.lt_le_trans; [exact Hlt |].
    apply Z.pow_le_mono_r; [lia |].
    pose proof (Z.div_mod (Z.log2 n) 4 ltac:(lia)) as Hdm.
    pose proof (Z.mod_pos_bound (Z.log2 n) 4 ltac:(lia)) as Hm.
    lia.
Qed.

Lemma hex_length_small (n : Z) :
  0 <= n < 2 ^ 256 -> (Digits.hex_length n <= 64)%nat.
Proof.
  intros [Hn Hlt]. unfold Digits.hex_length.
  destruct (n =? 0) eqn:E; [lia |].
  apply Z.eqb_neq in E.
  assert (Hlog : Z.log2 n < 256) by (apply Z.log2_lt_pow2; lia).
  pose proof (Z.log2_nonneg n) as Hl.
  assert (Z.log2 n / 4 < 64) by (apply Z.div_lt_upper_bound; lia).
  assert (0 <= Z.log2 n / 4) by (apply Z.div_pos; lia).
  lia.
Qed.

Lemma hex_length_large (n : Z) :
  2 ^ 256 <= n -> (64 < Digits.hex_length n)%nat.
Proof.
  intros Hge. unfold Digits.hex_length.
  assert (Hpos : 0 < n) by (pose proof (Z.pow_pos_nonneg 2 256); lia).
  destruct (n =? 0) eqn:E; [apply Z.eqb_eq in E; lia |].
  assert (Hlog : 256 <= Z.log2 n) by (apply Z.log2_le_pow2; lia).
  assert (64 <= Z.log2 n / 4) by (apply Z.div_le_lower_bound; lia).
  lia.
Qed.

(** [toString16] is the shortest hexadecimal text of a natural number: it
    reads back as the number, and has no leading zero. *)
Lemma hex_length_tight (n : Z) :
  0 < n -> 16 ^ (Z.of_nat (Digits.hex_length n) - 1) <= n.
Proof.
  intros Hpos. unfold Digits.hex_length.
  destruct (n =? 0) eqn:E; [apply Z.eqb_eq in E; lia |].
  pose proof (Z.log2_spec n Hpos) as [Hle _].
  pose proof (Z.log2_nonneg n) as Hl.
  assert (Hq : 0 <= Z.log2 n / 4) by (apply Z.div_pos; lia).
  rewrite Nat2Z.inj_succ, Z2Nat.id by exact Hq.
  replace (Z.succ (Z.log2 n / 4) - 1) with (Z.log2 n / 4) by lia.
  replace 16 with (2 ^ 4) by reflexivity.
  rewrite <- Z.pow_mul_r by lia.
  eapply Z.le_trans; [| exact Hle].
  apply Z.pow_le_mono_r; [lia |].
  pose proof (Z.div_mod (Z.log2 n) 4 ltac:(lia)) as Hdm.
  pose proof (Z.mod_pos_bound (Z.log2 n) 4 ltac:(lia)) as Hm.
  lia.
Qed.

Lemma toString16_value (n : Z) :
  0 <= n -> Digits.value 16 (BigInt.toString16 n) = Some n.
Proof.
  intros Hn. unfold BigInt.toString16, Digits.value.
  destruct (n <? 0) eqn:E; [lia |].
  rewrite value_from_digits by lia. f_equal.
  rewrite Z.mod_small by (split; [lia | apply hex_length_bound; lia]).
  lia.
Qed.

(** A 256-bit value is written as exactly one word: 64 hexadecimal
    characters whose big-endian value is the number itself. *)
Lemma word_of_uint256 (n : Z) :
  0 <= n < 2 ^ 256 ->
  let w := Js.padStart 64 "0" (BigInt.toString16 n) in
  String.length w = 64%nat
  /\ Digits.all_digits 16 w = true
  /\ Digits.value 16 w = Some n.
Proof.
  intros Hn w. subst w. unfold BigInt.toString16.
  destruct (n <? 0) eqn:E; [lia |].
  pose proof (hex_length_small n Hn) as Hk.
  split; [| split].
  - rewrite length_padStart, length_digits. lia.
  - unfold Js.padStart. rewrite all_digits_append, all_digits_zeros by lia.
    apply all_digits_digits.
  - unfold Js.padStart, Digits.value.
    rewrite value_from_append, value_from_zeros by lia.
    rewrite value_from_digits by lia. f_equal.
    rewrite Z.mod_small by (split; [lia | apply hex_length_bound; lia]).
    lia.
Qed.

(** Beyond 256 bits nothing is cut off: the text is longer than a word. *)
Lemma word_of_large (n : Z) :
  2 ^ 256 <= n ->
  (64 < String.length (Js.padStart 64 "0" (BigInt.toString16 n)))%nat.
Proof.
  intros Hge. unfold BigInt.toString16.
  assert (Hpos : 0 < n) by (pose proof (Z.pow_pos_nonneg 2 256); lia).
  destruct (n <? 0) eqn:E; [lia |].
  rewrite length_padStart, length_digits.
  pose proof (hex_length_large n Hge). lia.
Qed.

(** A negative value carries its minus sign into the padded text. *)
Lemma word_of_negative (n : Z) :
  n < 0 ->
  Digits.all_digits 16 (Js.padStart 64 "0" (BigInt.toString16 n)) = false.
Proof.
  intros Hneg. unfold BigInt.toString16, Js.padStart.
  destruct (n <? 0) eqn:E; [| lia].
  rewrite all_digits_append. simpl. apply andb_false_r.
Qed.

End StringFacts.

(** ** Unit conversion *)

Section UnitFacts.

Variable round : string -> Z.

Lemma digit_is_not (c d : ascii) :
  Digits.is_digit 10 c = true -> Digits.is_digit 10 d = false ->
  Ascii.eqb c d = false /\ Ascii.eqb d c = false.
Proof.
  intros Hc Hd.
  split; [destruct (Ascii.eqb_spec c d) | destruct (Ascii.eqb_spec d c)];
    try reflexivity; subst; congruence.
Qed.

Lemma digit_is_not_space (c : ascii) :
  Digits.is_digit 10 c = true -> BigInt.is_whitespace c = false.
Proof.
  unfold Digits.is_digit, Digits.digit_value, BigInt.is_whitespace.
  set (k := nat_of_ascii c).
  destruct ((9 <=? k)%nat && (k <=? 13)%nat || (k =? 32)%nat) eqn:Ews;
    [| reflexivity].
  intros Hd. exfalso.
  assert (Hk : (9 <= k <= 13)%nat \/ k = 32%nat).
  { apply orb_true_iff in Ews as [Ews | Ews].
    - apply andb_true_iff in Ews as [H1 H2].
      apply Nat.leb_le in H1, H2. lia.
    - apply Nat.eqb_eq in Ews. lia. }
  destruct ((48 <=? Z.of_nat k) && (Z.of_nat k <=? 57)) eqn:E1.
  { apply andb_true_iff in E1 as [H1 _]. apply Z.leb_le in H1. lia. }
  destruct ((97 <=? Z.of_nat k) && (Z.of_nat k <=? 122)) eqn:E2.
  { apply andb_true_iff in E2 as [H1 _]. apply Z.leb_le in H1. lia. }
  destruct ((65 <=? Z.of_nat k) && (Z.of_nat k <=? 90)) eqn:E3.
  { apply andb_true_iff in E3 as [H1 _]. apply Z.leb_le in H1. lia. }
  rewrite Z.ltb_irrefl in Hd. discriminate.
Qed.

Lemma digits_dot_digits_plain (i : string) :
  Digits.all_digits 10 i = true -> Units.digits_dot_digits i = true.
Proof.
  induction i as [|c i IH]; simpl; [reflexivity |].
  intros Hall. apply andb_true_iff in Hall as [Hc Hi].
  destruct (digit_is_not c "." Hc eq_refl) as [-> _].
  now rewrite Hc, IH.
Qed.

Lemma digits_dot_digits_dot (i f : string) :
  Digits.all_digits 10 i = true -> Digits.all_digits 10 f = true ->
  Units.digits_dot_digits (i +:+ "." +:+ f) = true.
Proof.
  intros Hi Hf. change ("." +:+ f) with (String "." f).
  induction i as [|c i IH]; simpl.
  - exact Hf.
  - simpl in Hi. apply andb_true_iff in Hi as [Hc Hi].
    destruct (digit_is_not c "." Hc eq_refl) as [-> _].
    now rewrite Hc, IH.
Qed.

Lemma split_dot_plain (i : string) :
  Digits.all_digits 10 i = true -> Units.split_dot i = (i, None).
Proof.
  induction i as [|c i IH]; simpl; [reflexivity |].
  intros Hall. apply andb_true_iff in Hall as [Hc Hi].
  destruct (digit_is_not c "." Hc eq_refl) as [-> _].
  now rewrite IH.
Qed.

Lemma split_dot_dot (i f : string) :
  Digits.all_digits 10 i = true -> Digits.all_digits 10 f = true ->
  Units.split_dot (i +:+ "." +:+ f) = (i, Some f).
Proof.
  intros Hi Hf. change ("." +:+ f) with (String "." f).
  induction i as [|c i IH]; simpl.
  - now rewrite split_dot_plain.
  - simpl in Hi. apply andb_true_iff in Hi as [Hc Hi].
    destruct (digit_is_not c "." Hc eq_refl) as [-> _].
    now rewrite IH.
Qed.

Lemma no_minus_sign (i rest : string) :
  Digits.all_digits 10 i = true ->
  Js.startsWith "-" rest = false ->
  Js.startsWith "-" (i +:+ rest) = false.
Proof.
  intros Hi Hrest. destruct i as [|c i]; [exact Hrest |].
  simpl in Hi. apply andb_true_iff in Hi as [Hc _].
  cbn [String.append Js.startsWith].
  destruct (digit_is_not c "-" Hc eq_refl) as [_ ->]. reflexivity.
Qed.

(** Trailing zeros: what is cut is a run of zeros, and the value of the
    digits shrinks by the matching power of ten. *)
Lemma trim_trailing_zeros_spec (f : string) :
  exists k,
    f = Units.trim_trailing_zeros f +:+ Js.repeat_char "0" k.
Proof.
  induction f as [|c f [k IH]]; [exists 0%nat; reflexivity |].
  cbn [Units.trim_trailing_zeros].
  destruct (Units.trim_trailing_zeros f) as [|d t] eqn:Et.
  - destruct (Ascii.eqb_spec c "0") as [-> | Hc].
    + exists (S k). cbn. f_equal. exact IH.
    + exists k. cbn. f_equal. exact IH.
  - exists k. rewrite IH at 1. reflexivity.
Qed.

Lemma value_from_shift (radix acc : Z) (s : string) :
  Digits.value_from radix acc s
  = (fun v => acc * radix ^ Z.of_nat (String.length s) + v)
      <$> Digits.value_from radix 0 s.
Proof.
  revert acc. induction s as [|c s IH]; intros acc.
  - simpl. f_equal. lia.
  - cbn [Digits.value_from String.length].
    destruct (Digits.digit_value radix c) as [d|]; [| reflexivity].
    rewrite (IH (acc * radix + d)), (IH (0 * radix + d)).
    destruct (Digits.value_from radix 0 s) as [v|]; [| reflexivity].
    cbn. f_equal.
    rewrite Nat2Z.inj_succ, Z.pow_succ_r by lia. ring.
Qed.

Lemma all_digits_value (radix : Z) (s : string) :
  Digits.all_digits radix s = true ->
  exists v, Digits.value radix s = Some v.
Proof.
  unfold Digits.value. generalize 0.
  induction s as [|c s IH]; intros acc; simpl; [eauto |].
  intros Hall. apply andb_true_iff in Hall as [Hc Hs].
  unfold Digits.is_digit in Hc.
  destruct (Digits.digit_value radix c); [apply IH; exact Hs | discriminate].
Qed.

Lemma trim_digits (s : string) :
  Digits.all_digits 10 s = true ->
  BigInt.trim_end (BigInt.trim_start s) = s.
Proof.
  intros Hall.
  assert (Hstart : BigInt.trim_start s = s).
  { destruct s as [|c s]; [reflexivity |]. simpl in *.
    apply andb_true_iff in Hall as [Hc _].
    now rewrite (digit_is_not_space c Hc). }
  rewrite Hstart. clear Hstart.
  induction s as [|c s IH]; [reflexivity |].
  simpl in Hall. apply andb_true_iff in Hall as [Hc Hs].
  cbn [BigInt.trim_end]. rewrite (IH Hs).
  destruct s; [now rewrite (digit_is_not_space c Hc) | reflexivity].
Qed.

(** [BigInt] reads a non-empty run of decimal digits as its value. *)
Lemma of_string_digits (s : string) :
  Digits.all_digits 10 s = true -> s <> "" ->
  BigInt.of_string s = Digits.value 10 s.
Proof.
  intros Hall Hne. unfold BigInt.of_string. rewrite (trim_digits s Hall).
  destruct s as [|c s]; [congruence |].
  cbn [String.eqb]. simpl in Hall.
  apply andb_true_iff in Hall as [Hc Hs].
  assert (Hsecond : forall x : ascii,
             Digits.is_digit 10 x = false ->
             Js.startsWith (String "0" (String x "")) (String c s) = false).
  { intros x Hx. cbn [Js.startsWith].
    destruct s as [|d s]; [apply andb_false_r |].
    simpl in Hs. apply andb_true_iff in Hs as [Hd _].
    destruct (digit_is_not d x Hd Hx) as [_ ->].
    apply andb_false_r. }
  rewrite !Hsecond by reflexivity.
  cbn [Js.startsWith orb].
  destruct (digit_is_not c "-" Hc eq_refl) as [_ ->].
  destruct (digit_is_not c "+" Hc eq_refl) as [_ ->].
  reflexivity.
Qed.

Lemma value_all_digits (radix : Z) (s : string) (v : Z) :
  Digits.value radix s = Some v -> Digits.all_digits radix s = true.
Proof.
  unfold Digits.value. generalize 0. revert v.
  induction s as [|c s IH]; intros v acc; simpl; [reflexivity |].
  unfold Digits.is_digit.
  destruct (Digits.digit_value radix c); [| discriminate].
  intros Hv. simpl. eapply IH. exact Hv.
Qed.

Lemma value_append (radix : Z) (s t : string) (vs vt : Z) :
  Digits.value radix s = Some vs ->
  Digits.value radix t = Some vt ->
  Digits.value radix (s +:+ t)
  = Some (vs * radix ^ Z.of_nat (String.length t) + vt).
Proof.
  unfold Digits.value. intros Hs Ht.
  rewrite value_from_append, Hs, value_from_shift, Ht. reflexivity.
Qed.

Lemma value_zeros (n : nat) : Digits.value 10 (Js.repeat_char "0" n) = Some 0.
Proof. unfold Digits.value. rewrite value_from_zeros by lia. reflexivity. Qed.

(** The digits handed to [BigInt] at the end of [parseUnits]. *)
Lemma scaled_digits (i t : string) (vi vt : Z) :
  Digits.value 10 i = Some vi ->
  Digits.value 10 t = Some vt ->
  (String.length t <= 18)%nat ->
  Units.to_bigint ("" +:+ i +:+ Js.padEnd 18 "0" t)
  = inr (vi * 10 ^ 18 + vt * 10 ^ (18 - Z.of_nat (String.length t))).
Proof.
  intros Hi Ht Hlen. unfold Units.to_bigint, Js.padEnd.
  cbn [String.append].
  set (z := Js.repeat_char "0" (18 - String.length t)).
  assert (Hz : Digits.value 10 z = Some 0) by apply value_zeros.
  assert (Hzl : String.length z = (18 - String.length t)%nat)
    by apply length_repeat_char.
  pose proof (value_append 10 t z vt 0 Ht Hz) as Htz.
  pose proof (value_append 10 i (t +:+ z) vi _ Hi Htz) as Hitz.
  rewrite of_string_digits.
  - rewrite Hitz. f_equal.
    rewrite length_append, Hzl.
    replace (Z.of_nat (String.length t + (18 - String.length t))) with 18 by lia.
    replace (Z.of_nat (18 - String.length t))
      with (18 - Z.of_nat (String.length t)) by lia.
    ring.
  - eapply value_all_digits. exact Hitz.
  - intros Hempty. apply (f_equal String.length) in Hempty.
    rewrite !length_append, Hzl in Hempty. simpl in Hempty. lia.
Qed.

Lemma trimmed_value (f : string) (vf : Z) :
  Digits.value 10 f = Some vf ->
  exists vt k,
    Digits.value 10 (Units.trim_trailing_zeros f) = Some vt
    /\ vf = vt * 10 ^ Z.of_nat k
    /\ String.length f = (String.length (Units.trim_trailing_zeros f) + k)%nat.
Proof.
  intros Hf. destruct (trim_trailing_zeros_spec f) as [k Hk].
  set (t := Units.trim_trailing_zeros f) in *.
  assert (Hall : Digits.all_digits 10 t = true).
  { apply value_all_digits in Hf. rewrite Hk, all_digits_append in Hf.
    now apply andb_true_iff in Hf as [Ht _]. }
  destruct (all_digits_value 10 t Hall) as [vt Hvt].
  exists vt, k. split; [exact Hvt |].
  split.
  - rewrite Hk in Hf.
    rewrite (value_append 10 t _ vt 0 Hvt (value_zeros k)) in Hf.
    rewrite length_repeat_char in Hf. injection Hf as <-. lia.
  - rewrite Hk at 1. now rewrite length_append, length_repeat_char.
Qed.

(** Exact scaling: a decimal text with integer digits [i] and at most 18
    fraction digits [f] is read as [i * 10^18 + f * 10^(18 - |f|)]. *)
Lemma parseUnits_exact (i f : string) (vi vf : Z) (value : string) :
  Digits.value 10 i = Some vi ->
  Digits.value 10 f = Some vf ->
  (String.length f <= 18)%nat ->
  value = i +:+ "." +:+ f \/ (value = i /\ f = "") ->
  Units.parseUnits round value 18
  = inr (vi * 10 ^ 18 + vf * 10 ^ (18 - Z.of_nat (String.length f))).
Proof.
  intros Hi Hf Hlen Hvalue.
  pose proof (value_all_digits 10 i vi Hi) as Hai.
  pose proof (value_all_digits 10 f vf Hf) as Haf.
  destruct (trimmed_value f vf Hf) as (vt & k & Hvt & Hvf & Hfl).
  assert (Hsign : Js.startsWith "-" i = false).
  { rewrite <- (append_empty_r i). now apply no_minus_sign. }
  assert (Hparts : Units.is_decimal_number value = true
                   /\ exists fraction,
                       Units.split_dot value = (i, fraction)
                       /\ Units.trim_trailing_zeros (default "0" fraction)
                          = Units.trim_trailing_zeros f).
  { unfold Units.is_decimal_number.
    destruct Hvalue as [-> | [-> ->]].
    - rewrite (no_minus_sign i ("." +:+ f) Hai eq_refl).
      rewrite digits_dot_digits_dot by assumption.
      split; [reflexivity |]. exists (Some f).
      now rewrite split_dot_dot.
    - rewrite Hsign, digits_dot_digits_plain by assumption.
      split; [reflexivity |]. exists None.
      now rewrite split_dot_plain. }
  destruct Hparts as (Hdec & fraction & Hsplit & Htrim).
  unfold Units.parseUnits.
  rewrite Hdec, Hsplit. cbn [negb]. rewrite Hsign, Htrim.
  set (t := Units.trim_trailing_zeros f) in *.
  assert (Hshort : (18 <? String.length t)%nat = false)
    by (apply Nat.ltb_ge; lia).
  rewrite Hshort. cbn [result_bind].
  rewrite (scaled_digits i t vi vt Hi Hvt) by lia.
  f_equal. f_equal. rewrite Hvf.
  replace (18 - Z.of_nat (String.length t))
    with (Z.of_nat k + (18 - Z.of_nat (String.length f))) by lia.
  rewrite Z.pow_add_r by lia. ring.
Qed.

Lemma value_from_nonneg (radix acc : Z) (s : string) (v : Z) :
  0 <= radix -> 0 <= acc ->
  Digits.value_from radix acc s = Some v -> 0 <= v.
Proof.
  intros Hr. revert acc. induction s as [|c s IH]; intros acc Hacc; simpl.
  - intros [= <-]. exact Hacc.
  - unfold Digits.digit_value.
    set (k := Z.of_nat (nat_of_ascii c)).
    assert (Hk : 0 <= k) by apply Nat2Z.is_nonneg.
    destruct ((48 <=? k) && (k <=? 57)) eqn:E1.
    { apply andb_true_iff in E1 as [H1 _]. apply Z.leb_le in H1.
      destruct (k - 48 <? radix); [| discriminate].
      apply IH. nia. }
    destruct ((97 <=? k) && (k <=? 122)) eqn:E2.
    { apply andb_true_iff in E2 as [H1 _]. apply Z.leb_le in H1.
      destruct (k - 87 <? radix); [| discriminate].
      apply IH. nia. }
    destruct ((65 <=? k) && (k <=? 90)) eqn:E3.
    { apply andb_true_iff in E3 as [H1 _]. apply Z.leb_le in H1.
      destruct (k - 55 <? radix); [| discriminate].
      apply IH. nia. }
    rewrite Z.ltb_irrefl. discriminate.
Qed.

Lemma value_nonneg (s : string) (v : Z) :
  Digits.value 10 s = Some v -> 0 <= v.
Proof. apply value_from_nonneg; lia. Qed.

End UnitFacts.

(** ** apriori-mon-stake *)

Section StakeFacts.

Variable round : string -> Z.
Variable message : Fault -> string.
Variable sender : string.
Context {World : Type} `{Client World}.

Lemma address_word (a : string) :
  is_address a = true ->
  let w := Js.padStart 64 "0" (Js.slice_from 2 a) in
  w = Js.repeat_char "0" 24 +:+ Js.slice_from 2 a
  /\ String.length w = 64%nat
  /\ Digits.all_digits 16 w = true.
Proof.
  intros Ha. unfold is_address in Ha.
  apply andb_true_iff in Ha as [Ha Hhex].
  apply andb_true_iff in Ha as [_ Hlen]. apply Nat.eqb_eq in Hlen.
  unfold Js.padStart. rewrite Hlen.
  change (64 - 40)%nat with 24%nat.
  split; [reflexivity | split].
  - rewrite length_append, length_repeat_char, Hlen. reflexivity.
  - rewrite all_digits_append, all_digits_zeros, Hhex by lia. reflexivity.
Qed.

(** The guard of the handler is the absence of the required parameter. *)
Lemma stake_guard (operation : Operation) (amount requestId : option string) :
  (needs_amount operation && negb (Js.truthy amount))
  || (needs_requestId operation && negb (Js.truthy requestId))
  = negb (Js.truthy (required_parameter operation amount requestId)).
Proof.
  unfold required_parameter.
  destruct operation; simpl; rewrite ?orb_false_r; reflexivity.
Qed.

(** Past the guard, the handler's effect is one submission of the built
    call; the report is decided by the wallet's answer. *)
Lemma stake_submits (operation : Operation) (amount requestId : option string)
      (call : StakeCall) (s : Store World unit) :
  Js.truthy (required_parameter operation amount requestId) = true ->
  stake_call round sender operation amount requestId = inr call ->
  apriori_mon_stake round message sender operation amount requestId s
  = let request := submission call in
    let s' := mkStore (snd (sendTransaction request (world s)))
                      (trace s ++ [SendTransaction request]) (locals s) in
    match fst (sendTransaction request (world s)) with
    | inr hash =>
        (inr (operationName call +:+ " operation successful: "
                +:+ successMessage operation amount requestId
                +:+ ". Tx: " +:+ EXPLORER_URL +:+ hash), s')
    | inl error =>
        (inr ("Apriori " +:+ operation_text operation +:+ " failed: "
                +:+ message error), s')
    end.
Proof.
  intros Hpresent Hbuild.
  pose proof (stake_guard operation amount requestId) as Hguard.
  rewrite Hpresent in Hguard. simpl in Hguard.
  apply orb_false_iff in Hguard as [Hg1 Hg2].
  unfold apriori_mon_stake, try_catch, bind, lift, await, ret.
  rewrite Hg1, Hg2, Hbuild. cbn zeta.
  destruct (sendTransaction (submission call) (world s)) as [[error | hash] w];
    reflexivity.
Qed.

Lemma stake_submits_trace (operation : Operation)
      (amount requestId : option string) (call : StakeCall)
      (s : Store World unit) :
  Js.truthy (required_parameter operation amount requestId) = true ->
  stake_call round sender operation amount requestId = inr call ->
  trace (snd (apriori_mon_stake round message sender operation amount requestId s))
  = trace s ++ [SendTransaction (submission call)].
Proof.
  intros Hpresent Hbuild.
  rewrite (stake_submits operation amount requestId call s Hpresent Hbuild).
  cbv zeta.
  destruct (fst (sendTransaction (submission call) (world s))); reflexivity.
Qed.

(** Without the required parameter nothing happens but the error text. *)
Lemma stake_rejects (operation : Operation) (amount requestId : option string)
      (s : Store World unit) :
  Js.truthy (required_parameter operation amount requestId) = false ->
  apriori_mon_stake round message sender operation amount requestId s
  = (inr (if needs_amount operation
          then "Error: Amount is required for " +:+ operation_text operation
                 +:+ " operation."
          else "Error: Request ID is required for redeem operation."), s).
Proof.
  intros Habsent.
  unfold apriori_mon_stake, try_catch, bind, lift, await, ret.
  unfold required_parameter in Habsent.
  destruct operation; simpl in *; rewrite Habsent; reflexivity.
Qed.

Lemma stake_call_of_argument (operation : Operation)
      (amount requestId : option string) (n : Z) :
  stake_argument round operation amount requestId = inr n ->
  exists call,
    stake_call round sender operation amount requestId = inr call
    /\ data call
       = selector operation
           +:+ match operation with
               | deposit =>
                   Js.padStart 64 "0" (BigInt.toString16 n)
                     +:+ Js.padStart 64 "0" (Js.slice_from 2 sender)
               | unstake =>
                   Js.padStart 64 "0" (BigInt.toString16 n)
                     +:+ Js.padStart 64 "0" (Js.slice_from 2 sender)
                     +:+ Js.padStart 64 "0" (Js.slice_from 2 sender)
               | redeem =>
                   Js.padStart 64 "0" "40"
                     +:+ Js.padStart 64 "0" (Js.slice_from 2 sender)
                     +:+ Js.padStart 64 "0" "01"
                     +:+ Js.padStart 64 "0" (BigInt.toString16 n)
               end.
Proof.
  intros Harg. unfold stake_call, stake_argument in *.
  destruct operation; rewrite Harg; cbn [result_bind];
    eexists; (split; [reflexivity |]); cbn [data selector];
    rewrite ?append_assoc; reflexivity.
Qed.

(** C1, as amended: when the required parameter is present and the number
    it denotes fits an unsigned 256-bit word, the calldata starts with the
    operation's four-byte selector and is exactly [4 + 32 * wordCount]
    bytes long (two words for deposit, three for unstake, four for redeem);
    it is this calldata that the handler hands to the wallet. *)
Theorem calldata_selector_and_length
        (operation : Operation) (amount requestId : option string) (n : Z) :
  is_address sender = true ->
  Js.truthy (required_parameter operation amount requestId) = true ->
  stake_argument round operation amount requestId = inr n ->
  0 <= n < 2 ^ 256 ->
  exists call,
    stake_call round sender operation amount requestId = inr call
    /\ (forall s : Store World unit,
          trace (snd (apriori_mon_stake round message sender
                        operation amount requestId s))
          = trace s ++ [SendTransaction (submission call)])
    /\ Js.startsWith (selector operation) (data call) = true
    /\ byte_length (selector operation) = Some 4%nat
    /\ byte_length (data call) = Some (4 + 32 * wordCount operation)%nat.
Proof.
  intros Haddr Hpresent Harg Hn.
  destruct (stake_call_of_argument operation amount requestId n Harg)
    as (call & Hcall & Hdata).
  destruct (address_word sender Haddr) as (_ & Hal & Hah).
  destruct (word_of_uint256 n Hn) as (Hwl & Hwh & _).
  exists call. split; [exact Hcall |].
  split; [intros s; now apply stake_submits_trace |]. rewrite Hdata.
  set (wa := Js.padStart 64 "0" (Js.slice_from 2 sender)) in *.
  set (wn := Js.padStart 64 "0" (BigInt.toString16 n)) in *.
  destruct operation; cbn [selector wordCount].
  - split; [reflexivity | split; [reflexivity |]].
    unfold byte_length.
    cbn [String.append Js.startsWith Js.slice_from Digits.all_digits String.length].
    rewrite !all_digits_append, !length_append, Hwl, Hal, Hwh, Hah.
    reflexivity.
  - split; [reflexivity | split; [reflexivity |]].
    unfold byte_length.
    cbn [String.append Js.startsWith Js.slice_from Digits.all_digits String.length].
    rewrite !all_digits_append, !length_append, Hwl, Hal, Hwh, Hah.
    reflexivity.
  - split; [reflexivity | split; [reflexivity |]].
    unfold byte_length.
    cbn [String.append Js.startsWith Js.slice_from Digits.all_digits String.length].
    rewrite !all_digits_append, !length_append, Hwl, Hal, Hwh, Hah.
    reflexivity.
Qed.

(** C2, as amended: for deposit and unstake, an amount written as decimal
    digits with at most 18 fraction digits is scaled by 10^18 exactly, in
    integer arithmetic; when the scaled integer is below 2^256 it is the
    first calldata word, 64 hexadecimal characters, zero-padded on the left,
    big-endian.  Amount ["1.5"] gives 1500000000000000000, written
    [14d1120d7b160000] behind 48 zeros. *)
Theorem amount_word_is_exact
        (operation : Operation) (requestId : option string)
        (i f amount : string) (vi vf : Z) :
  operation = deposit \/ operation = unstake ->
  Digits.value 10 i = Some vi ->
  Digits.value 10 f = Some vf ->
  (String.length f <= 18)%nat ->
  amount = i +:+ "." +:+ f \/ (amount = i /\ f = "") ->
  let n := vi * 10 ^ 18 + vf * 10 ^ (18 - Z.of_nat (String.length f)) in
  let w := Js.padStart 64 "0" (BigInt.toString16 n) in
  n < 2 ^ 256 ->
  exists call rest,
    Units.parseUnits round amount 18 = inr n
    /\ stake_call round sender operation (Some amount) requestId = inr call
    /\ data call = selector operation +:+ w +:+ rest
    /\ String.length w = 64%nat
    /\ Digits.all_digits 16 w = true
    /\ Digits.value 16 w = Some n
    /\ (amount = "1.5" ->
        n = 1500000000000000000
        /\ w = "00000000000000000000000000000000000000000000000014d1120d7b160000").
Proof.
  intros Hop Hi Hf Hlen Hamount n w Hfit.
  pose proof (parseUnits_exact round i f vi vf amount Hi Hf Hlen Hamount) as Hparse.
  fold n in Hparse.
  assert (Hn : 0 <= n < 2 ^ 256).
  { split; [| exact Hfit]. subst n.
    pose proof (value_nonneg i vi Hi). pose proof (value_nonneg f vf Hf).
    assert (0 <= 10 ^ (18 - Z.of_nat (String.length f)))
      by (apply Z.pow_nonneg; lia).
    nia. }
  assert (Harg : stake_argument round operation (Some amount) requestId = inr n).
  { destruct Hop as [-> | ->]; exact Hparse. }
  destruct (stake_call_of_argument operation (Some amount) requestId n Harg)
    as (call & Hcall & Hdata).
  destruct (word_of_uint256 n Hn) as (Hwl & Hwh & Hwv).
  assert (Hrest : exists rest, data call = selector operation +:+ w +:+ rest).
  { rewrite Hdata. destruct Hop as [-> | ->]; eexists; reflexivity. }
  destruct Hrest as [rest Hrest].
  exists call, rest.
  repeat (split; [assumption |]).
  intros ->.
  assert (Hval : n = 1500000000000000000).
  { assert (Hc : Units.parseUnits round "1.5" 18 = inr 1500000000000000000)
      by reflexivity.
    rewrite Hparse in Hc. now injection Hc. }
  split; [exact Hval |]. subst w. rewrite Hval. reflexivity.
Qed.

(** C3: for a redeem with a valid request id (one that [BigInt] reads as a
    number below 2^256, not negative), the calldata is the selector followed
    by four words, in this order: the offset [0x40], the caller's twenty
    address bytes behind twelve zero bytes, the flag [0x01], and the request
    id as a left-zero-padded 32-byte word.  Request id ["0"] gives 64 zero
    characters and ["255"] a word that ends in [ff]. *)
Theorem redeem_calldata_words (amount : option string) (r : string) (n : Z) :
  is_address sender = true ->
  BigInt.of_string r = Some n ->
  0 <= n < 2 ^ 256 ->
  exists call w,
    stake_call round sender redeem amount (Some r) = inr call
    /\ data call
       = "0x492e47d2"
           +:+ "0000000000000000000000000000000000000000000000000000000000000040"
           +:+ (Js.repeat_char "0" 24 +:+ Js.slice_from 2 sender)
           +:+ "0000000000000000000000000000000000000000000000000000000000000001"
           +:+ w
    /\ String.length (Js.slice_from 2 sender) = 40%nat
    /\ Digits.all_digits 16 (Js.slice_from 2 sender) = true
    /\ String.length w = 64%nat
    /\ Digits.all_digits 16 w = true
    /\ Digits.value 16 w = Some n
    /\ (r = "0" ->
        w = "0000000000000000000000000000000000000000000000000000000000000000")
    /\ (r = "255" ->
        w = "00000000000000000000000000000000000000000000000000000000000000ff").
Proof.
  intros Haddr Hr Hn.
  assert (Harg : stake_argument round redeem amount (Some r) = inr n).
  { unfold stake_argument, parse_requestId, Units.to_bigint. now rewrite Hr. }
  destruct (stake_call_of_argument redeem amount (Some r) n Harg)
    as (call & Hcall & Hdata).
  destruct (address_word sender Haddr) as (Hw & _ & _).
  destruct (word_of_uint256 n Hn) as (Hwl & Hwh & Hwv).
  exists call, (Js.padStart 64 "0" (BigInt.toString16 n)).
  split; [exact Hcall |]. split.
  { rewrite Hdata. cbv zeta in Hw. rewrite Hw. reflexivity. }
  unfold is_address in Haddr.
  apply andb_true_iff in Haddr as [Haddr Hhex].
  apply andb_true_iff in Haddr as [_ Hlen]. apply Nat.eqb_eq in Hlen.
  repeat (split; [assumption |]).
  split; intros ->; vm_compute in Hr; injection Hr as <-; reflexivity.
Qed.

(** C4: with [amount] absent for a deposit or an unstake, or [requestId]
    absent for a redeem, the call answers with its error text and leaves the
    world and the trace as they were: nothing is submitted. *)
Theorem missing_parameter_is_reported
        (operation : Operation) (amount requestId : option string)
        (s : Store World unit) :
  (operation = deposit \/ operation = unstake) /\ amount = None
  \/ operation = redeem /\ requestId = None ->
  exists text,
    apriori_mon_stake round message sender operation amount requestId s
    = (inr text, s)
    /\ (text = "Error: Amount is required for " +:+ operation_text operation
                 +:+ " operation."
        \/ text = "Error: Request ID is required for redeem operation.")
    /\ Js.startsWith "Error: " text = true.
Proof.
  intros Hmissing. eexists. split.
  - apply stake_rejects.
    destruct Hmissing as [[[-> | ->] ->] | [-> ->]]; reflexivity.
  - destruct Hmissing as [[[-> | ->] ->] | [-> ->]]; simpl; auto.
Qed.

(** The empty string counts as absent too: the handler tests truthiness. *)
Lemma empty_parameter_is_reported
      (operation : Operation) (amount requestId : option string)
      (s : Store World unit) :
  required_parameter operation amount requestId = Some "" ->
  snd (apriori_mon_stake round message sender operation amount requestId s) = s.
Proof.
  intros Hempty. rewrite stake_rejects; [reflexivity |]. now rewrite Hempty.
Qed.

Lemma requestId_nonzero_is_present (r : string) (n : Z) :
  BigInt.of_string r = Some n -> n <> 0 -> Js.truthy (Some r) = true.
Proof.
  intros Hr Hn. destruct r as [|c r]; [| reflexivity].
  vm_compute in Hr. congruence.
Qed.

(** C5, as amended: a request id that denotes a negative integer, or one of
    2^256 or more, is not refused.  The builder writes its signed or
    over-long text in place of the fourth word (so that the text is not 64
    hexadecimal digits), the call is handed to the wallet, and the report is
    the success text when the wallet returns a hash. *)
Theorem redeem_out_of_range_is_submitted
        (amount : option string) (r : string) (n : Z) (s : Store World unit) :
  BigInt.of_string r = Some n ->
  n < 0 \/ 2 ^ 256 <= n ->
  let w := Js.padStart 64 "0" (BigInt.toString16 n) in
  let request :=
    {| req_to := contractAddress;
       req_data := "0x492e47d2"
                     +:+ Js.padStart 64 "0" "40"
                     +:+ Js.padStart 64 "0" (Js.slice_from 2 sender)
                     +:+ Js.padStart 64 "0" "01"
                     +:+ w;
       req_value := 0;
       req_gas := gasLimitClaim |} in
  let outcome :=
    apriori_mon_stake round message sender redeem amount (Some r) s in
  Digits.all_digits 16 w && (String.length w =? 64)%nat = false
  /\ trace (snd outcome) = (trace s ++ [SendTransaction request])%list
  /\ (forall hash,
        fst (sendTransaction request (world s)) = inr hash ->
        fst outcome
        = inr ("Redeem operation successful: Redeemed MON for request id "
                 +:+ r +:+ ". Tx: " +:+ EXPLORER_URL +:+ hash)).
Proof.
  intros Hr Hrange w request outcome.
  assert (Harg : stake_argument round redeem amount (Some r) = inr n).
  { unfold stake_argument, parse_requestId, Units.to_bigint. now rewrite Hr. }
  destruct (stake_call_of_argument redeem amount (Some r) n Harg)
    as (call & Hcall & Hdata).
  assert (Hpresent : Js.truthy (required_parameter redeem amount (Some r)) = true).
  { apply (requestId_nonzero_is_present r n Hr).
    pose proof (Z.pow_pos_nonneg 2 256). lia. }
  assert (Hrequest : submission call = request).
  { unfold submission, request. rewrite Hdata.
    unfold stake_call in Hcall. unfold parse_requestId, Units.to_bigint in Hcall.
    rewrite Hr in Hcall. cbn [result_bind] in Hcall.
    injection Hcall as <-. reflexivity. }
  assert (Hname : operationName call = "Redeem").
  { unfold stake_call in Hcall. unfold parse_requestId, Units.to_bigint in Hcall.
    rewrite Hr in Hcall. cbn [result_bind] in Hcall.
    injection Hcall as <-. reflexivity. }
  pose proof (stake_submits redeem amount (Some r) call s Hpresent Hcall) as Hrun.
  rewrite Hrequest in Hrun. cbv zeta in Hrun.
  split; [| split].
  - subst w. destruct Hrange as [Hneg | Hbig].
    + now rewrite word_of_negative.
    + pose proof (word_of_large n Hbig) as Hlen.
      apply andb_false_iff. right. apply Nat.eqb_neq. lia.
  - subst outcome.
    rewrite (stake_submits_trace redeem amount (Some r) call s Hpresent Hcall).
    now rewrite Hrequest.
  - intros hash Hhash. subst outcome. rewrite Hrun, Hhash, Hname.
    reflexivity.
Qed.

End StakeFacts.

Lemma calldata_selector_and_length_witness :
  exists call,
    stake_call Sample.round Sample.address deposit (Some "1.5") None = inr call
    /\ (forall s : Store Z unit,
          trace (snd (apriori_mon_stake Sample.round Sample.message Sample.address
                        deposit (Some "1.5") None s))
          = trace s ++ [SendTransaction (submission call)])
    /\ Js.startsWith (selector deposit) (data call) = true
    /\ byte_length (selector deposit) = Some 4%nat
    /\ byte_length (data call) = Some (4 + 32 * wordCount deposit)%nat.
Proof.
  apply (calldata_selector_and_length Sample.round Sample.message Sample.address
           deposit (Some "1.5") None 1500000000000000000);
    [reflexivity | reflexivity | reflexivity | lia].
Defined.

(** C1 as stated fails: an amount of 10^60 MON is present, yet its scaled
    value takes 65 hexadecimal digits, so the deposit calldata is 139
    characters long instead of 138 and is not a whole number of bytes.  An
    amount of -1 MON is present too; its word has the right width but holds a
    minus sign, so the calldata is no byte sequence either. *)
Lemma calldata_length_overflow :
  (exists call,
      stake_call Sample.round Sample.address deposit
        (Some "1000000000000000000000000000000000000000000000000000000000000") None
      = inr call
      /\ Js.truthy
           (required_parameter deposit
              (Some "1000000000000000000000000000000000000000000000000000000000000")
              None) = true
      /\ String.length (data call) = 139%nat
      /\ byte_length (data call) = None)
  /\ (exists call,
         stake_call Sample.round Sample.address deposit (Some "-1") None = inr call
         /\ Js.truthy (required_parameter deposit (Some "-1") None) = true
         /\ data call
            = "0x6e553f65"
                +:+ "000000000000000000000000000000000000000000000000-de0b6b3a7640000"
                +:+ "00000000000000000000000000000000000000000000000000000000000000a1"
         /\ byte_length (data call) = None).
Proof. split; eexists; repeat split; vm_compute; reflexivity. Qed.

Lemma amount_word_is_exact_witness :
  let n := 1 * 10 ^ 18 + 5 * 10 ^ (18 - Z.of_nat (String.length "5")) in
  let w := Js.padStart 64 "0" (BigInt.toString16 n) in
  exists call rest,
    Units.parseUnits Sample.round "1.5" 18 = inr n
    /\ stake_call Sample.round Sample.address deposit (Some "1.5") None = inr call
    /\ data call = selector deposit +:+ w +:+ rest
    /\ String.length w = 64%nat
    /\ Digits.all_digits 16 w = true
    /\ Digits.value 16 w = Some n
    /\ ("1.5" = "1.5" ->
        n = 1500000000000000000
        /\ w = "00000000000000000000000000000000000000000000000014d1120d7b160000").
Proof.
  apply (amount_word_is_exact Sample.round Sample.address deposit None
           "1" "5" "1.5" 1 5);
    [left; reflexivity | reflexivity | reflexivity | simpl; lia
    | left; reflexivity | vm_compute; reflexivity].
Defined.

(** C2 as stated fails on a large amount: 10^60 MON is scaled exactly, to
    10^78, but that number needs 65 hexadecimal digits, and the text put in
    the place of the first word is 65 characters long, not 64.  A negative
    amount is scaled exactly as well, and its minus sign ends up inside the
    word. *)
Lemma amount_word_overflow :
  (exists call rest,
      Units.parseUnits Sample.round
        "1000000000000000000000000000000000000000000000000000000000000" 18
      = inr (10 ^ 78)
      /\ stake_call Sample.round Sample.address unstake
           (Some "1000000000000000000000000000000000000000000000000000000000000")
           None
         = inr call
      /\ data call
         = selector unstake
             +:+ Js.padStart 64 "0" (BigInt.toString16 (10 ^ 78)) +:+ rest
      /\ String.length rest = 128%nat
      /\ String.length (Js.padStart 64 "0" (BigInt.toString16 (10 ^ 78))) = 65%nat)
  /\ Units.parseUnits Sample.round "-1.5" 18 = inr (-1500000000000000000)
  /\ Js.padStart 64 "0" (BigInt.toString16 (-1500000000000000000))
     = "00000000000000000000000000000000000000000000000-14d1120d7b160000".
Proof.
  split; [| split; vm_compute; reflexivity].
  eexists.
  exists (Js.padStart 64 "0" (Js.slice_from 2 Sample.address)
            +:+ Js.padStart 64 "0" (Js.slice_from 2 Sample.address)).
  repeat split; vm_compute; reflexivity.
Qed.

Lemma redeem_calldata_words_witness :
  exists call w,
    stake_call Sample.round Sample.address redeem None (Some "255") = inr call
    /\ data call
       = "0x492e47d2"
           +:+ "0000000000000000000000000000000000000000000000000000000000000040"
           +:+ (Js.repeat_char "0" 24 +:+ Js.slice_from 2 Sample.address)
           +:+ "0000000000000000000000000000000000000000000000000000000000000001"
           +:+ w
    /\ String.length (Js.slice_from 2 Sample.address) = 40%nat
    /\ Digits.all_digits 16 (Js.slice_from 2 Sample.address) = true
    /\ String.length w = 64%nat
    /\ Digits.all_digits 16 w = true
    /\ Digits.value 16 w = Some 255
    /\ ("255" = "0" ->
        w = "0000000000000000000000000000000000000000000000000000000000000000")
    /\ ("255" = "255" ->
        w = "00000000000000000000000000000000000000000000000000000000000000ff").
Proof.
  apply (redeem_calldata_words Sample.round Sample.address None "255" 255);
    [reflexivity | reflexivity | lia].
Defined.

Lemma missing_parameter_is_reported_witness :
  exists text,
    apriori_mon_stake Sample.round Sample.message Sample.address
      deposit None None (Sample.start 0 tt)
    = (inr text, Sample.start 0 tt)
    /\ (text = "Error: Amount is required for " +:+ operation_text deposit
                 +:+ " operation."
        \/ text = "Error: Request ID is required for redeem operation.")
    /\ Js.startsWith "Error: " text = true.
Proof.
  apply (missing_parameter_is_reported Sample.round Sample.message Sample.address
           deposit None None (Sample.start 0 tt)).
  left. split; [left; reflexivity | reflexivity].
Defined.

Lemma redeem_out_of_range_is_submitted_witness :
  let w := Js.padStart 64 "0" (BigInt.toString16 (-5)) in
  let request :=
    {| req_to := contractAddress;
       req_data := "0x492e47d2"
                     +:+ Js.padStart 64 "0" "40"
                     +:+ Js.padStart 64 "0" (Js.slice_from 2 Sample.address)
                     +:+ Js.padStart 64 "0" "01"
                     +:+ w;
       req_value := 0;
       req_gas := gasLimitClaim |} in
  let outcome :=
    apriori_mon_stake Sample.round Sample.message Sample.address
      redeem None (Some "-5") (Sample.start 0 tt) in
  Digits.all_digits 16 w && (String.length w =? 64)%nat = false
  /\ trace (snd outcome)
     = (trace (Sample.start 0 tt) ++ [SendTransaction request])%list
  /\ (forall hash,
        fst (sendTransaction request (world (Sample.start 0 tt))) = inr hash ->
        fst outcome
        = inr ("Redeem operation successful: Redeemed MON for request id "
                 +:+ "-5" +:+ ". Tx: " +:+ EXPLORER_URL +:+ hash)).
Proof.
  apply (redeem_out_of_range_is_submitted Sample.round Sample.message
           Sample.address None "-5" (-5) (Sample.start 0 tt));
    [reflexivity | left; lia].
Defined.

(** C5 as stated fails: the request id [0x10] followed by 64 zeros denotes
    2^260.  No error is reported; the call is submitted with a fourth word of
    66 characters and the wallet's hash comes back in the success text. *)
Lemma redeem_overflow_reports_success :
  apriori_mon_stake Sample.round Sample.message Sample.address redeem None
    (Some "0x100000000000000000000000000000000000000000000000000000000000000000")
    (Sample.start 0 tt)
  = (inr ("Redeem operation successful: Redeemed MON for request id "
            +:+ "0x100000000000000000000000000000000000000000000000000000000000000000"
            +:+ ". Tx: https://testnet.monadexplorer.com/tx/0xf00d"),
     mkStore 0
       [SendTransaction
          {| req_to := "0xb2f82D0f38dc453D596Ad40A37799446Cc89274A";
             req_data :=
               "0x492e47d2"
                 +:+ "0000000000000000000000000000000000000000000000000000000000000040"
                 +:+ "00000000000000000000000000000000000000000000000000000000000000a1"
                 +:+ "0000000000000000000000000000000000000000000000000000000000000001"
                 +:+ "100000000000000000000000000000000000000000000000000000000000000000";
             req_value := 0;
             req_gas := 800000 |}]
       tt).
Proof. vm_compute. reflexivity. Qed.

(** ** account-transaction-history *)

Section HistoryFacts.

Context {World : Type} `{Client World}.
Variable address : string.
Variable limit : Z.

Lemma block_fetches_app (xs ys : list Event) :
  block_fetches (xs ++ ys) = (block_fetches xs + block_fetches ys)%nat.
Proof. unfold block_fetches. now rewrite filter_app, length_app. Qed.

Lemma scan_extends_refl (s : Store World HistoryVars) : scan_extends limit s s.
Proof.
  unfold scan_extends. split_and!.
  - reflexivity.
  - exists []. now rewrite app_nil_r.
  - exists []. now rewrite app_nil_r.
  - tauto.
  - lia.
Qed.

Lemma scan_extends_trans (s1 s2 s3 : Store World HistoryVars) :
  scan_extends limit s1 s2 -> scan_extends limit s2 s3 -> scan_extends limit s1 s3.
Proof.
  intros (Hb1 & [m1 Hm1] & (e1 & He1 & Hf1) & Hd1 & Hl1)
         (Hb2 & [m2 Hm2] & (e2 & He2 & Hf2) & Hd2 & Hl2).
  unfold scan_extends. split_and!.
  - congruence.
  - exists (m1 ++ m2). now rewrite Hm2, Hm1, app_assoc.
  - exists (e1 ++ e2). split.
    + now rewrite He2, He1, app_assoc.
    + rewrite block_fetches_app. lia.
  - tauto.
  - lia.
Qed.

(** One transaction of the scan, case by case. *)
Lemma process_transactions_cons (block : Block) (tx : Transaction)
      (rest : list Transaction) (s : Store World HistoryVars) :
  process_transactions address limit block (tx :: rest) s
  = if bool_decide (tx_hash tx ∈ processed (locals s))
       || (limit <=? Z.of_nat (length (transactions (locals s))))
    then process_transactions address limit block rest s
    else if involves_address address tx
    then
      let fetched := getTransactionReceipt (tx_hash tx) (world s) in
      let s1 := mkStore (snd fetched)
                        (trace s ++ [GetTransactionReceipt (tx_hash tx)])
                        (locals s) in
      match fst fetched with
      | inl e => (inl e, s1)
      | inr receipt =>
          match toISOString (block_timestamp block) with
          | inl e => (inl e, s1)
          | inr timestamp =>
              process_transactions address limit block rest
                (mkStore (snd fetched)
                   (trace s ++ [GetTransactionReceipt (tx_hash tx)])
                   {| transactions :=
                        transactions (locals s)
                          ++ [activity_record block tx receipt timestamp];
                      processed := {[ tx_hash tx ]} ∪ processed (locals s);
                      currentBlock := currentBlock (locals s) |})
          end
      end
    else process_transactions address limit block rest s.
Proof.
  cbn [process_transactions]. unfold bind at 1. unfold get at 1. cbn beta iota.
  destruct (bool_decide (tx_hash tx ∈ processed (locals s))
            || (limit <=? Z.of_nat (length (transactions (locals s)))));
    [reflexivity |].
  destruct (involves_address address tx); [| reflexivity].
  unfold bind, await, lift, push_record, mark_processed, get, put. cbn.
  destruct (getTransactionReceipt (tx_hash tx) (world s)) as [[e | receipt] w];
    cbn; [reflexivity |].
  destruct (toISOString (block_timestamp block)); reflexivity.
Qed.

Lemma deduplicated_push (v : HistoryVars) (r : ActivityRecord) :
  rec_hash r ∉ processed v ->
  deduplicated v ->
  deduplicated {| transactions := transactions v ++ [r];
                  processed := {[ rec_hash r ]} ∪ processed v;
                  currentBlock := currentBlock v |}.
Proof.
  intros Hfresh [Hnodup Hsub]. unfold deduplicated, hashes in *. cbn.
  rewrite map_app. cbn. split.
  - apply NoDup_app. split; [exact Hnodup | split].
    + intros h Hin Hin'. apply list_elem_of_singleton in Hin'. subst h.
      apply Hfresh, Hsub, Hin.
    + apply NoDup_singleton.
  - intros h Hin. apply elem_of_app in Hin as [Hin | Hin].
    + apply elem_of_union_r, Hsub, Hin.
    + apply list_elem_of_singleton in Hin. subst h.
      apply elem_of_union_l, elem_of_singleton. reflexivity.
Qed.

(** Scanning a block keeps everything the walk relies on, whether the scan
    runs to its end or is cut short by a fault. *)
Lemma process_transactions_extends (block : Block) (txs : list Transaction)
      (s : Store World HistoryVars) :
  scan_extends limit s (snd (process_transactions address limit block txs s)).
Proof.
  revert s. induction txs as [|tx rest IH]; intros s.
  - apply scan_extends_refl.
  - rewrite process_transactions_cons.
    destruct (bool_decide (tx_hash tx ∈ processed (locals s))) eqn:Eseen;
      [apply IH |].
    destruct (limit <=? Z.of_nat (length (transactions (locals s)))) eqn:Efull;
      [apply IH |].
    cbn [orb].
    destruct (involves_address address tx); [| apply IH].
    cbv zeta.
    destruct (getTransactionReceipt (tx_hash tx) (world s)) as [fetched w].
    cbn [fst snd].
    assert (Hfetch : scan_extends limit s
              (mkStore w (trace s ++ [GetTransactionReceipt (tx_hash tx)])
                       (locals s))).
    { unfold scan_extends. cbn. split_and!.
      - reflexivity.
      - exists []. now rewrite app_nil_r.
      - exists [GetTransactionReceipt (tx_hash tx)]. split; reflexivity.
      - tauto.
      - lia. }
    destruct fetched as [e | receipt]; [exact Hfetch |].
    destruct (toISOString (block_timestamp block)) as [e | timestamp];
      [exact Hfetch |].
    eapply scan_extends_trans; [| apply IH].
    apply bool_decide_eq_false in Eseen. apply Z.leb_gt in Efull.
    unfold scan_extends. cbn. split_and!.
    + reflexivity.
    + eexists. reflexivity.
    + exists [GetTransactionReceipt (tx_hash tx)]. split; reflexivity.
    + apply (deduplicated_push (locals s)
               (activity_record block tx receipt timestamp) Eseen).
    + rewrite length_app. cbn. lia.
Qed.

Lemma history_block_run (s : Store World HistoryVars) :
  history_block address limit s
  = let b := currentBlock (locals s) in
    let fetched := getBlock b true (world s) in
    let s1 := mkStore (snd fetched) (trace s ++ [GetBlock b true]) (locals s) in
    match fst fetched with
    | inl e => (inl e, s1)
    | inr block =>
        let scanned :=
          process_transactions address limit block (block_transactions block) s1 in
        match fst scanned with
        | inl e => (inl e, snd scanned)
        | inr _ =>
            (inr tt, mkStore (world (snd scanned)) (trace (snd scanned))
                             (step_back (locals (snd scanned))))
        end
    end.
Proof.
  unfold history_block, bind, await, get, previous_block, put. cbn.
  destruct (getBlock (currentBlock (locals s)) true (world s))
    as [[e | block] w]; cbn; [reflexivity |].
  destruct (process_transactions address limit block (block_transactions block) _)
    as [[e | []] s2]; reflexivity.
Qed.

Lemma history_iteration_run (s : Store World HistoryVars) :
  history_iteration address limit s
  = let attempt := history_block address limit s in
    match fst attempt with
    | inr _ => (inr tt, snd attempt)
    | inl blockError =>
        (inr tt,
         mkStore (world (snd attempt))
           (trace (snd attempt)
              ++ [ConsoleError
                    ("Error processing block "
                       +:+ BigInt.toString (currentBlock (locals (snd attempt)))
                       +:+ ":")
                    blockError])
           (step_back (locals (snd attempt))))
    end.
Proof.
  unfold history_iteration, try_catch.
  destruct (history_block address limit s) as [[e | []] s1]; reflexivity.
Qed.

Lemma step_back_deduplicated (v : HistoryVars) :
  deduplicated v -> deduplicated (step_back v).
Proof. intros Hd. exact Hd. Qed.

(** What a guarded block leaves behind when it ends in a fault: the walk's
    pointer has not moved yet, and nothing found so far is lost. *)
Lemma history_block_extends (s : Store World HistoryVars) :
  let attempt := history_block address limit s in
  exists events,
    trace (snd attempt)
    = trace s ++ GetBlock (currentBlock (locals s)) true :: events
    /\ block_fetches events = 0%nat
    /\ (exists more,
          transactions (locals (snd attempt)) = transactions (locals s) ++ more)
    /\ (deduplicated (locals s) -> deduplicated (locals (snd attempt)))
    /\ Z.of_nat (length (transactions (locals (snd attempt))))
       <= Z.max limit (Z.of_nat (length (transactions (locals s))))
    /\ currentBlock (locals (snd attempt))
       = match fst attempt with
         | inr _ => currentBlock (locals s) - 1
         | inl _ => currentBlock (locals s)
         end.
Proof.
  cbv zeta. rewrite history_block_run. cbv zeta.
  destruct (getBlock (currentBlock (locals s)) true (world s)) as [[e | block] w];
    cbn [fst snd].
  - exists []. cbn. split_and!.
    + reflexivity.
    + reflexivity.
    + exists []. now rewrite app_nil_r.
    + tauto.
    + lia.
    + reflexivity.
  - pose proof (process_transactions_extends block (block_transactions block)
                  (mkStore w (trace s ++ [GetBlock (currentBlock (locals s)) true])
                           (locals s)))
      as (Hb & [more Hmore] & (events & Htrace & Hfetch) & Hd & Hlen).
    cbn in Hb, Hmore, Htrace, Hd, Hlen.
    destruct (process_transactions address limit block (block_transactions block) _)
      as [[e | []] s2]; cbn [fst snd] in *.
    + exists events. split_and!; try assumption.
      * now rewrite Htrace, <- app_assoc.
      * exists more. exact Hmore.
    + exists events. cbn. split_and!; try assumption.
      * now rewrite Htrace, <- app_assoc.
      * exists more. exact Hmore.
      * now rewrite Hb.
Qed.

(** One turn of the loop always ends normally, one block further back. *)
Lemma history_iteration_step (s : Store World HistoryVars) :
  exists s',
    history_iteration address limit s = (inr tt, s')
    /\ walk_step limit s s'.
Proof.
  rewrite history_iteration_run. cbv zeta.
  destruct (history_block_extends s)
    as (events & Htrace & Hfetch & Hmore & Hd & Hlen & Hblock).
  cbv zeta in *.
  destruct (history_block address limit s) as [[e | []] s1]; cbn [fst snd] in *.
  - eexists. split; [reflexivity |]. unfold walk_step. cbn. split_and!.
    + now rewrite Hblock.
    + exact Hmore.
    + eexists. split.
      * rewrite Htrace, <- app_assoc. cbn. reflexivity.
      * rewrite block_fetches_app. rewrite Hfetch. reflexivity.
    + exact Hd.
    + exact Hlen.
  - eexists. split; [reflexivity |]. unfold walk_step. split_and!; try assumption.
    exists events. split; assumption.
Qed.

(** The outer loop: it never ends in a fault; it fetches at most [remaining]
    blocks, and fewer only if [limit] records are in hand; records are only
    appended, each within the limit, and stay de-duplicated. *)
Lemma history_loop_run (remaining : nat) (s : Store World HistoryVars) :
  exists s' events,
    history_loop address limit remaining s = (inr tt, s')
    /\ trace s' = trace s ++ events
    /\ (block_fetches events <= remaining)%nat
    /\ (block_fetches events = remaining
        \/ limit <= Z.of_nat (length (transactions (locals s'))))
    /\ currentBlock (locals s')
       = currentBlock (locals s) - Z.of_nat (block_fetches events)
    /\ (exists more, transactions (locals s') = transactions (locals s) ++ more)
    /\ (deduplicated (locals s) -> deduplicated (locals s'))
    /\ Z.of_nat (length (transactions (locals s')))
       <= Z.max limit (Z.of_nat (length (transactions (locals s)))).
Proof.
  revert s. induction remaining as [|remaining IH]; intros s.
  - exists s, []. cbn. split_and!.
    + reflexivity.
    + now rewrite app_nil_r.
    + lia.
    + left. reflexivity.
    + lia.
    + exists []. now rewrite app_nil_r.
    + tauto.
    + lia.
  - cbn [history_loop]. unfold bind at 1. unfold get at 1. cbn beta iota.
    destruct (Z.of_nat (length (transactions (locals s))) <? limit) eqn:Eroom.
    + unfold bind at 1.
      destruct (history_iteration_step s)
        as (s1 & -> & Hb1 & [m1 Hm1] & (e1 & He1 & Hf1) & Hd1 & Hl1).
      destruct (IH s1)
        as (s2 & e2 & -> & He2 & Hf2 & Hstop & Hb2 & [m2 Hm2] & Hd2 & Hl2).
      exists s2, (GetBlock (currentBlock (locals s)) true :: e1 ++ e2).
      assert (Hcount : block_fetches
                         (GetBlock (currentBlock (locals s)) true :: e1 ++ e2)
                       = S (block_fetches e2)).
      { change (GetBlock (currentBlock (locals s)) true :: e1 ++ e2)
          with ([GetBlock (currentBlock (locals s)) true] ++ e1 ++ e2).
        rewrite !block_fetches_app, Hf1. reflexivity. }
      rewrite Hcount. split_and!.
      * reflexivity.
      * rewrite He2, He1, <- app_assoc. reflexivity.
      * lia.
      * destruct Hstop as [-> | Hfull]; [left; reflexivity | right; exact Hfull].
      * rewrite Hb2, Hb1. lia.
      * exists (m1 ++ m2). now rewrite Hm2, Hm1, app_assoc.
      * tauto.
      * lia.
    + apply Z.ltb_ge in Eroom.
      exists s, []. cbn. split_and!.
      * reflexivity.
      * now rewrite app_nil_r.
      * lia.
      * right. exact Eroom.
      * lia.
      * exists []. now rewrite app_nil_r.
      * tauto.
      * lia.
Qed.

(** The loop's two exits. *)
Lemma history_loop_quota (remaining : nat) (s : Store World HistoryVars) :
  limit <= Z.of_nat (length (transactions (locals s))) ->
  history_loop address limit remaining s = (inr tt, s).
Proof.
  intros Hfull. destruct remaining as [|remaining]; [reflexivity |].
  cbn [history_loop]. unfold bind, get. cbn.
  apply Z.ltb_ge in Hfull. now rewrite Hfull.
Qed.

End HistoryFacts.

Section HistoryTool.

Variable message : Fault -> string.
Context {World : Type} `{Client World}.
Variable address : string.

Lemma account_transaction_history_run (limit : Z) (s : Store World HistoryVars) :
  account_transaction_history message address limit s
  = let counted := getTransactionCount address (world s) in
    let t1 := trace s ++ [GetTransactionCount address] in
    match fst counted with
    | inl e =>
        (inr (HistoryFailure ("Error fetching transaction history: " +:+ message e)),
         mkStore (snd counted) t1 (locals s))
    | inr sentTxs =>
        let head := getBlockNumber (snd counted) in
        let t2 := t1 ++ [GetBlockNumber] in
        match fst head with
        | inl e =>
            (inr (HistoryFailure
                    ("Error fetching transaction history: " +:+ message e)),
             mkStore (snd head) t2 (locals s))
        | inr latestBlock =>
            let walked :=
              history_loop address limit blocksToSearch
                (mkStore (snd head) t2
                   {| transactions := []; processed := ∅;
                      currentBlock := latestBlock |}) in
            (inr (HistoryReport address sentTxs
                    (transactions (locals (snd walked)))),
             snd walked)
        end
    end.
Proof.
  unfold account_transaction_history, try_catch.
  unfold bind at 1. unfold await at 1.
  destruct (getTransactionCount address (world s)) as [[e | sentTxs] w];
    cbn [fst snd]; [reflexivity |].
  unfold bind at 1. unfold await at 1. cbn [world trace locals].
  destruct (getBlockNumber w) as [[e | latestBlock] w2];
    cbn [fst snd]; [reflexivity |].
  unfold bind at 1. unfold put at 1. cbn [world trace locals].
  unfold bind at 1.
  destruct (history_loop_run address limit blocksToSearch
              (mkStore w2
                 ((trace s ++ [GetTransactionCount address]) ++ [GetBlockNumber])
                 {| transactions := []; processed := ∅;
                    currentBlock := latestBlock |}))
    as (s' & events & Hrun & _).
  rewrite Hrun. reflexivity.
Qed.

Lemma deduplicated_empty (latestBlock : Z) :
  deduplicated {| transactions := []; processed := ∅; currentBlock := latestBlock |}.
Proof.
  split; cbn.
  - apply NoDup_nil_2.
  - intros h Hin. apply elem_of_nil in Hin. contradiction.
Qed.

(** C6: the records returned by one account-transaction-history call carry
    pairwise different transaction hashes, whatever the node answers; a
    transaction that the address both sent and received is reported once. *)
Theorem history_has_no_duplicate_hash
        (limit : Z) (s : Store World HistoryVars)
        (reported : string) (sentTxs : Z) (found : list ActivityRecord) :
  fst (account_transaction_history message address limit s)
  = inr (HistoryReport reported sentTxs found) ->
  NoDup (hashes found).
Proof.
  rewrite account_transaction_history_run. cbv zeta.
  destruct (getTransactionCount address (world s)) as [[e | n] w];
    cbn [fst snd]; [discriminate |].
  destruct (getBlockNumber w) as [[e | latestBlock] w2];
    cbn [fst snd]; [discriminate |].
  destruct (history_loop_run address limit blocksToSearch
              (mkStore w2
                 ((trace s ++ [GetTransactionCount address]) ++ [GetBlockNumber])
                 {| transactions := []; processed := ∅;
                    currentBlock := latestBlock |}))
    as (s' & events & Hrun & _ & _ & _ & _ & _ & Hd & _).
  rewrite Hrun. cbn [snd]. intros [= _ _ <-].
  exact (proj1 (Hd (deduplicated_empty latestBlock))).
Qed.

(** C9: with [limit = 0] a call whose nonce and head-number requests are
    answered returns the report with no record, and these two requests are
    all it makes: no block is fetched.  In general, from answered nonce and
    head-number requests the call returns a report; the walk behind it
    fetches at most ten blocks, stops short of ten only once [limit] records
    are in hand, and reports no more than [limit] records.  The report is
    what the loop leaves, and the loop goes on exactly while fewer than
    [limit] records are in hand and blocks remain: each of its two exits
    (quota reached, ten blocks consulted) leaves the store as it is, and
    otherwise it does one more turn.  Whatever the node answers, a call with
    [limit = 0] makes no request but these two, and no call fetches more
    than ten blocks. *)
Theorem walk_stops_at_quota :
  (forall (s : Store World HistoryVars) sentTxs w latestBlock w2,
      getTransactionCount address (world s) = (inr sentTxs, w) ->
      getBlockNumber w = (inr latestBlock, w2) ->
      account_transaction_history message address 0 s
      = (inr (HistoryReport address sentTxs []),
         mkStore w2 (trace s ++ [GetTransactionCount address; GetBlockNumber])
                 {| transactions := []; processed := ∅;
                    currentBlock := latestBlock |}))
  /\ (forall (limit : Z) (s : Store World HistoryVars) sentTxs w latestBlock w2,
         getTransactionCount address (world s) = (inr sentTxs, w) ->
         getBlockNumber w = (inr latestBlock, w2) ->
         exists found events,
           account_transaction_history message address limit s
           = (inr (HistoryReport address sentTxs found),
              snd (history_loop address limit blocksToSearch
                     (mkStore w2
                        (trace s ++ [GetTransactionCount address; GetBlockNumber])
                        {| transactions := []; processed := ∅;
                           currentBlock := latestBlock |})))
           /\ found
              = transactions
                  (locals (snd (account_transaction_history
                                  message address limit s)))
           /\ trace (snd (account_transaction_history message address limit s))
              = trace s ++ [GetTransactionCount address; GetBlockNumber] ++ events
           /\ (block_fetches events <= 10)%nat
           /\ (block_fetches events = 10%nat
               \/ limit <= Z.of_nat (length found))
           /\ Z.of_nat (length found) <= Z.max limit 0
           /\ (limit <= 0 -> found = [] /\ events = []))
  /\ (forall s : Store World HistoryVars,
         let outcome := account_transaction_history message address 0 s in
         (trace (snd outcome)
          = trace s ++ [GetTransactionCount address; GetBlockNumber]
          \/ trace (snd outcome) = trace s ++ [GetTransactionCount address])
         /\ forall reported sentTxs found,
             fst outcome = inr (HistoryReport reported sentTxs found) ->
             found = []
             /\ trace (snd outcome)
                = trace s ++ [GetTransactionCount address; GetBlockNumber])
  /\ (forall (limit : Z) (s : Store World HistoryVars),
         let outcome := account_transaction_history message address limit s in
         exists events,
           trace (snd outcome) = trace s ++ events
           /\ (block_fetches events <= 10)%nat
           /\ forall reported sentTxs found,
               fst outcome = inr (HistoryReport reported sentTxs found) ->
               Z.of_nat (length found) <= Z.max limit 0
               /\ (block_fetches events = 10%nat
                   \/ limit <= Z.of_nat (length found)))
  /\ (forall (limit : Z) (remaining : nat) (s : Store World HistoryVars),
         limit <= Z.of_nat (length (transactions (locals s))) ->
         history_loop address limit remaining s = (inr tt, s))
  /\ (forall (limit : Z) (s : Store World HistoryVars),
         history_loop address limit 0 s = (inr tt, s))
  /\ (forall (limit : Z) (remaining : nat) (s : Store World HistoryVars),
         Z.of_nat (length (transactions (locals s))) < limit ->
         fst (history_iteration address limit s) = inr tt
         /\ history_loop address limit (S remaining) s
            = history_loop address limit remaining
                (snd (history_iteration address limit s))).
Proof.
  split_and!.
  - intros s sentTxs w latestBlock w2 Hcount Hhead.
    rewrite account_transaction_history_run. cbv zeta.
    rewrite Hcount. cbn [fst snd]. rewrite Hhead. cbn [fst snd].
    rewrite history_loop_quota by apply Nat2Z.is_nonneg.
    cbn [snd locals transactions]. now rewrite <- app_assoc.
  - intros limit s sentTxs w latestBlock w2 Hcount Hhead.
    rewrite account_transaction_history_run. cbv zeta.
    rewrite Hcount. cbn [fst snd]. rewrite Hhead. cbn [fst snd].
    replace ((trace s ++ [GetTransactionCount address]) ++ [GetBlockNumber])
      with (trace s ++ [GetTransactionCount address; GetBlockNumber])
      by now rewrite <- app_assoc.
    destruct (history_loop_run address limit blocksToSearch
                (mkStore w2
                   (trace s ++ [GetTransactionCount address; GetBlockNumber])
                   {| transactions := []; processed := ∅;
                      currentBlock := latestBlock |}))
      as (s' & events & Hrun & Htrace & Hle & Hstop & _ & _ & _ & Hlen).
    rewrite Hrun. cbn [snd]. cbn in Htrace, Hlen.
    exists (transactions (locals s')), events.
    split_and!.
    + reflexivity.
    + reflexivity.
    + rewrite Htrace, <- app_assoc. reflexivity.
    + exact Hle.
    + exact Hstop.
    + lia.
    + intros Hnone.
      assert (Hquiet : history_loop address limit blocksToSearch
                         (mkStore w2
                            (trace s ++ [GetTransactionCount address; GetBlockNumber])
                            {| transactions := []; processed := ∅;
                               currentBlock := latestBlock |})
                       = (inr tt,
                          mkStore w2
                            (trace s ++ [GetTransactionCount address; GetBlockNumber])
                            {| transactions := []; processed := ∅;
                               currentBlock := latestBlock |}))
        by (apply history_loop_quota; cbn; lia).
      rewrite Hquiet in Hrun. injection Hrun as <-.
      cbn in Htrace. split; [reflexivity |].
      apply (app_inv_head (trace s ++ [GetTransactionCount address; GetBlockNumber])).
      now rewrite app_nil_r.
  - intros s outcome. subst outcome.
    rewrite account_transaction_history_run. cbv zeta.
    destruct (getTransactionCount address (world s)) as [[e | n] w];
      cbn [fst snd].
    { split; [right; reflexivity | discriminate]. }
    destruct (getBlockNumber w) as [[e | latestBlock] w2]; cbn [fst snd].
    { split; [left; now rewrite <- app_assoc | discriminate]. }
    rewrite history_loop_quota by apply Nat2Z.is_nonneg.
    cbn [snd trace locals transactions].
    split; [left; now rewrite <- app_assoc |].
    intros reported sentTxs found [= _ _ <-].
    split; [reflexivity | now rewrite <- app_assoc].
  - intros limit s outcome. subst outcome.
    rewrite account_transaction_history_run. cbv zeta.
    destruct (getTransactionCount address (world s)) as [[e | n] w];
      cbn [fst snd].
    { exists [GetTransactionCount address].
      split_and!; [reflexivity | vm_compute; lia | discriminate]. }
    destruct (getBlockNumber w) as [[e | latestBlock] w2]; cbn [fst snd].
    { exists [GetTransactionCount address; GetBlockNumber].
      split_and!; [now rewrite <- app_assoc | vm_compute; lia | discriminate]. }
    destruct (history_loop_run address limit blocksToSearch
                (mkStore w2
                   ((trace s ++ [GetTransactionCount address]) ++ [GetBlockNumber])
                   {| transactions := []; processed := ∅;
                      currentBlock := latestBlock |}))
      as (s' & events & Hrun & Htrace & Hle & Hstop & _ & _ & _ & Hlen).
    rewrite Hrun. cbn [snd]. cbn in Htrace, Hlen.
    exists ([GetTransactionCount address; GetBlockNumber] ++ events).
    split_and!.
    + rewrite Htrace, <- !app_assoc. reflexivity.
    + rewrite block_fetches_app. exact Hle.
    + intros reported sentTxs found [= _ _ <-]. split; [lia |].
      rewrite block_fetches_app. exact Hstop.
  - intros limit remaining s. apply history_loop_quota.
  - reflexivity.
  - intros limit remaining s Hroom.
    destruct (history_iteration_step address limit s) as (s1 & Hrun & _).
    rewrite Hrun. split; [reflexivity |].
    cbn [history_loop]. unfold bind at 1. unfold get at 1. cbn beta iota.
    apply Z.ltb_lt in Hroom. rewrite Hroom.
    unfold bind at 1. rewrite Hrun. reflexivity.
Qed.

End HistoryTool.

Lemma walk_stops_at_quota_witness :
  account_transaction_history Sample.message Sample.address 0
    (Sample.start 0 Sample.no_history)
  = (inr (HistoryReport Sample.address 3 []),
     mkStore 0 [GetTransactionCount Sample.address; GetBlockNumber]
             {| transactions := []; processed := ∅; currentBlock := 100 |}).
Proof.
  apply (proj1 (walk_stops_at_quota Sample.message Sample.address)
           (Sample.start 0 Sample.no_history) 3 0 100 0).
  - reflexivity.
  - reflexivity.
Defined.

Lemma history_has_no_duplicate_hash_witness :
  NoDup (hashes Sample.history_found).
Proof.
  apply (history_has_no_duplicate_hash Sample.message Sample.address 10
           (Sample.start 0 Sample.no_history) Sample.address 3
           Sample.history_found).
  vm_compute. reflexivity.
Defined.

(** ** chain-statistics *)

Section StatsFacts.

Context {World : Type} `{Client World}.
Variable blocks : Z.

Lemma stats_block_run (latestBlock i : Z) (s : Store World StatsVars) :
  stats_block latestBlock i s
  = let b := latestBlock - i in
    let info := getBlock b false (world s) in
    let t1 := trace s ++ [GetBlock b false] in
    match fst info with
    | inl e => (inl e, mkStore (snd info) t1 (locals s))
    | inr _ =>
        let full := getBlock b true (snd info) in
        let t2 := t1 ++ [GetBlock b true] in
        match fst full with
        | inl e => (inl e, mkStore (snd full) t2 (locals s))
        | inr blockWithTxs =>
            (inr tt,
             mkStore (snd full) t2
               {| totalTransactions :=
                    totalTransactions (locals s)
                    + Z.of_nat (length (block_transactions blockWithTxs));
                  uniqueAddresses :=
                    add_addresses (block_transactions blockWithTxs)
                                  (uniqueAddresses (locals s)) |})
        end
    end.
Proof.
  unfold stats_block, bind, await, get, put. cbn.
  destruct (getBlock (latestBlock - i) false (world s)) as [[e | info] w];
    cbn; [reflexivity |].
  destruct (getBlock (latestBlock - i) true w) as [[e | full] w2]; reflexivity.
Qed.

Lemma stats_iteration_run (latestBlock i : Z) (s : Store World StatsVars) :
  stats_iteration latestBlock i s
  = let attempt := stats_block latestBlock i s in
    match fst attempt with
    | inr _ => (inr tt, snd attempt)
    | inl error =>
        (inr tt,
         mkStore (world (snd attempt))
           (trace (snd attempt) ++ [ConsoleError "Error processing block:" error])
           (locals (snd attempt)))
    end.
Proof.
  unfold stats_iteration, try_catch, emit.
  destruct (stats_block latestBlock i s) as [[e | []] s1]; reflexivity.
Qed.


Lemma stats_iteration_total (latestBlock i : Z) (s : Store World StatsVars) :
  exists s', stats_iteration latestBlock i s = (inr tt, s').
Proof.
  rewrite stats_iteration_run. cbv zeta.
  destruct (fst (stats_block latestBlock i s)); eexists; reflexivity.
Qed.

Lemma stats_loop_total (fuel : nat) (latestBlock i : Z) (s : Store World StatsVars) :
  exists s', stats_loop blocks fuel latestBlock i s = (inr tt, s').
Proof.
  revert i s. induction fuel as [|fuel IH]; intros i s; [eexists; reflexivity |].
  cbn [stats_loop].
  destruct (i <? Z.min blocks 10); [| eexists; reflexivity].
  unfold bind at 1.
  destruct (stats_iteration_total latestBlock i s) as [s1 ->].
  apply IH.
Qed.

(** One turn of the loop hands over to the next older block. *)
Lemma stats_loop_next (fuel : nat) (latestBlock i : Z) (s : Store World StatsVars) :
  i < Z.min blocks 10 ->
  stats_loop blocks (S fuel) latestBlock i s
  = stats_loop blocks fuel latestBlock (i + 1)
      (snd (stats_iteration latestBlock i s)).
Proof.
  intros Hi. cbn [stats_loop].
  apply Z.ltb_lt in Hi. rewrite Hi. unfold bind at 1.
  destruct (stats_iteration_total latestBlock i s) as [s1 ->]. reflexivity.
Qed.

(** On a chain with stable answers the walk adds up the transaction counts
    of the blocks it could fetch, over [min(blocks, 10)] blocks; ten units of
    fuel are enough for that. *)
Lemma stats_loop_sum (chain : Z -> result Block) (latestBlock : Z)
      (fuel : nat) (i : Z) (s : Store World StatsVars) :
  (forall j flag w,
      0 <= j < Z.min blocks 10 -> fst (getBlock (latestBlock - j) flag w) = chain j) ->
  0 <= i ->
  Z.min blocks 10 - i <= Z.of_nat fuel ->
  totalTransactions (locals (snd (stats_loop blocks fuel latestBlock i s)))
  = totalTransactions (locals s)
    + window_total chain (Z.to_nat (Z.min blocks 10 - i)) i.
Proof.
  intros Hchain. revert i s.
  induction fuel as [|fuel IH]; intros i s Hi Hfuel.
  - cbn [stats_loop ret snd].
    replace (Z.to_nat (Z.min blocks 10 - i)) with 0%nat by lia.
    cbn. lia.
  - destruct (Z.lt_ge_cases i (Z.min blocks 10)) as [Hlt | Hge].
    + rewrite (stats_loop_next fuel latestBlock i s Hlt).
      rewrite IH by lia.
      replace (Z.to_nat (Z.min blocks 10 - i))
        with (S (Z.to_nat (Z.min blocks 10 - (i + 1)))) by lia.
      cbn [window_total].
      assert (Hstep : totalTransactions
                        (locals (snd (stats_iteration latestBlock i s)))
                      = totalTransactions (locals s) + transaction_count (chain i)).
      { rewrite stats_iteration_run, stats_block_run. cbv zeta.
        pose proof (Hchain i false (world s) (conj Hi Hlt)) as Hinfo.
        destruct (getBlock (latestBlock - i) false (world s)) as [info w].
        cbn [fst snd] in *. rewrite Hinfo.
        destruct (chain i) as [e | block] eqn:Eanswer; [cbn; lia |].
        pose proof (Hchain i true w (conj Hi Hlt)) as Hfull.
        destruct (getBlock (latestBlock - i) true w) as [full w2].
        cbn [fst snd] in *. rewrite Hfull, Eanswer. cbn. reflexivity. }
      rewrite Hstep. lia.
    + cbn [stats_loop]. apply Z.ltb_ge in Hge. rewrite Hge. cbn [ret snd].
      replace (Z.to_nat (Z.min blocks 10 - i)) with 0%nat by lia.
      cbn. lia.
Qed.

End StatsFacts.

Section StatsTool.

Variable message : Fault -> string.
Context {World : Type} `{Client World}.

Lemma chain_statistics_run (blocks : Z) (s : Store World StatsVars) :
  chain_statistics message blocks s
  = let head := getBlockNumber (world s) in
    let t1 := trace s ++ [GetBlockNumber] in
    match fst head with
    | inl e =>
        (inr (StatsFailure ("Error fetching chain statistics: " +:+ message e)),
         mkStore (snd head) t1 (locals s))
    | inr latestBlock =>
        let walked :=
          snd (stats_loop blocks 10 latestBlock 0
                 (mkStore (snd head) t1
                    {| totalTransactions := 0; uniqueAddresses := ∅ |})) in
        let chain := getChainId (world walked) in
        let t2 := trace walked ++ [GetChainId] in
        match fst chain with
        | inl e =>
            (inr (StatsFailure ("Error fetching chain statistics: " +:+ message e)),
             mkStore (snd chain) t2 (locals walked))
        | inr chainId =>
            let price := getGasPrice (snd chain) in
            let t3 := t2 ++ [GetGasPrice] in
            match fst price with
            | inl e =>
                (inr (StatsFailure
                        ("Error fetching chain statistics: " +:+ message e)),
                 mkStore (snd price) t3 (locals walked))
            | inr gasPrice =>
                (inr (StatsFound
                        {| stat_chainId := chainId;
                           stat_currentBlock := latestBlock;
                           stat_gasPrice := formatUnits gasPrice 9;
                           stat_blocks := blocks;
                           stat_totalTransactions :=
                             totalTransactions (locals walked);
                           stat_uniqueAddresses :=
                             size (uniqueAddresses (locals walked));
                           stat_averageTransactionsPerBlock :=
                             {| dividend := totalTransactions (locals walked);
                                divisor := blocks |} |}),
                 mkStore (snd price) t3 (locals walked))
            end
        end
    end.
Proof.
  unfold chain_statistics, try_catch.
  unfold bind at 1. unfold await at 1.
  destruct (getBlockNumber (world s)) as [[e | latestBlock] w];
    cbn [fst snd]; [reflexivity |].
  unfold bind at 1. unfold put at 1. cbn [world trace locals].
  unfold bind at 1.
  destruct (stats_loop_total blocks 10 latestBlock 0
              (mkStore w (trace s ++ [GetBlockNumber])
                       {| totalTransactions := 0; uniqueAddresses := ∅ |}))
    as [walked Hwalk].
  rewrite Hwalk. cbn [snd].
  unfold bind at 1. unfold await at 1.
  destruct (getChainId (world walked)) as [[e | chainId] w2];
    cbn [fst snd]; [reflexivity |].
  unfold bind at 1. unfold await at 1. cbn [world trace locals].
  destruct (getGasPrice w2) as [[e | gasPrice] w3]; cbn [fst snd]; reflexivity.
Qed.

(** C7: the average in a chain-statistics report is the reported total
    divided by the requested [blocks], whatever was fetched.  The total is
    summed over the [min(blocks, 10)] blocks of the window, failed fetches
    counting for nothing, while the divisor stays [blocks]; with [blocks = 5]
    the report shows the five-block total over 5. *)
Theorem average_divides_by_requested_blocks
        (blocks : Z) (s : Store World StatsVars) (report : StatsReport) :
  fst (chain_statistics message blocks s) = inr (StatsFound report) ->
  stat_blocks report = blocks
  /\ stat_averageTransactionsPerBlock report
     = {| dividend := stat_totalTransactions report; divisor := blocks |}
  /\ forall chain : Z -> result Block,
      (forall j flag w,
          0 <= j < Z.min blocks 10 ->
          fst (getBlock (stat_currentBlock report - j) flag w) = chain j) ->
      stat_totalTransactions report
      = window_total chain (Z.to_nat (Z.min blocks 10)) 0
      /\ (blocks = 5 ->
          stat_averageTransactionsPerBlock report
          = {| dividend := window_total chain 5 0; divisor := 5 |}).
Proof.
  rewrite chain_statistics_run. cbv zeta.
  destruct (getBlockNumber (world s)) as [[e | latestBlock] w];
    cbn [fst snd]; [discriminate |].
  pose proof (fun chain => stats_loop_sum blocks chain latestBlock 10 0
                (mkStore w (trace s ++ [GetBlockNumber])
                         {| totalTransactions := 0; uniqueAddresses := ∅ |}))
    as Hsum.
  set (walked := snd (stats_loop blocks 10 latestBlock 0 _)) in *.
  destruct (getChainId (world walked)) as [[e | chainId] w2];
    cbn [fst snd]; [discriminate |].
  destruct (getGasPrice w2) as [[e | gasPrice] w3];
    cbn [fst snd]; [discriminate |].
  intros [= <-]. cbn.
  split; [reflexivity | split; [reflexivity |]].
  intros chain Hchain.
  assert (Htotal : totalTransactions (locals walked)
                   = window_total chain (Z.to_nat (Z.min blocks 10)) 0).
  { rewrite (Hsum chain Hchain) by lia. cbn [locals totalTransactions].
    rewrite Z.sub_0_r. lia. }
  split; [exact Htotal |].
  intros ->. rewrite Htotal. reflexivity.
Qed.

End StatsTool.

Lemma average_divides_by_requested_blocks_witness :
  stat_totalTransactions Sample.stats_report
  = window_total (fun j => Sample.block_at (100 - j)) (Z.to_nat (Z.min 5 10)) 0
  /\ (5 = 5 ->
      stat_averageTransactionsPerBlock Sample.stats_report
      = {| dividend := window_total (fun j => Sample.block_at (100 - j)) 5 0;
           divisor := 5 |}).
Proof.
  refine (proj2 (proj2 (average_divides_by_requested_blocks Sample.message 5
                          (Sample.start 0 Sample.no_stats) Sample.stats_report _))
                (fun j => Sample.block_at (100 - j)) _).
  - vm_compute. reflexivity.
  - intros j flag w Hj. reflexivity.
Defined.

(** ** transaction-details *)

Section DetailsFacts.

Variable message : Fault -> string.
Context {World : Type} `{Client World}.

Lemma transaction_details_run (hash : string) (s : Store World unit) :
  transaction_details message hash s
  = let found := getTransaction hash (world s) in
    let t1 := trace s ++ [GetTransaction hash] in
    match fst found with
    | inl e =>
        (inr (DetailsFailure ("Failed to retrieve transaction details for hash: "
                                +:+ hash +:+ ". Error: " +:+ message e)),
         mkStore (snd found) t1 (locals s))
    | inr transaction =>
        let fetched := getTransactionReceipt hash (snd found) in
        let t2 := t1 ++ [GetTransactionReceipt hash] in
        match fst fetched with
        | inl e =>
            (inr (DetailsFailure
                    ("Failed to retrieve transaction details for hash: "
                       +:+ hash +:+ ". Error: " +:+ message e)),
             mkStore (snd fetched) t2 (locals s))
        | inr receipt =>
            (inr (DetailsFound
                    (details_report hash transaction receipt
                       (Date_now (snd fetched)))),
             mkStore (snd fetched) t2 (locals s))
        end
    end.
Proof.
  unfold transaction_details, try_catch, bind, await, now, ret. cbn.
  destruct (getTransaction hash (world s)) as [[e | transaction] w];
    cbn; [reflexivity |].
  destruct (getTransactionReceipt hash w) as [[e | receipt] w2]; reflexivity.
Qed.

(** C10: the timestamp of a details report is the reading of the server's
    clock when the report is built.  The call asks the node for the
    transaction and its receipt and for no block, so no block timestamp is at
    hand; two calls that get the same transaction and receipt agree on every
    field that comes from the chain, and differ in the timestamp as soon as
    the clock has moved. *)
Theorem details_timestamp_is_server_time
        (hash : string) (s s' : Store World unit)
        (transaction : Transaction) (receipt : Receipt) (w1 w2 w1' w2' : World) :
  getTransaction hash (world s) = (inr transaction, w1) ->
  getTransactionReceipt hash w1 = (inr receipt, w2) ->
  getTransaction hash (world s') = (inr transaction, w1') ->
  getTransactionReceipt hash w1' = (inr receipt, w2') ->
  exists r r',
    fst (transaction_details message hash s) = inr (DetailsFound r)
    /\ fst (transaction_details message hash s') = inr (DetailsFound r')
    /\ det_timestamp r = Date_now w2
    /\ det_timestamp r' = Date_now w2'
    /\ chain_fields r = chain_fields r'
    /\ (Date_now w2 <> Date_now w2' -> det_timestamp r <> det_timestamp r')
    /\ trace (snd (transaction_details message hash s))
       = trace s ++ [GetTransaction hash; GetTransactionReceipt hash].
Proof.
  intros Ht Hr Ht' Hr'.
  rewrite !transaction_details_run. cbv zeta.
  rewrite Ht, Ht'. cbn [fst snd]. rewrite Hr, Hr'. cbn [fst snd trace].
  eexists _, _. split_and!; try reflexivity.
  - intros Hclock. exact Hclock.
  - now rewrite <- app_assoc.
Qed.

End DetailsFacts.

Lemma details_timestamp_is_server_time_witness :
  exists r r',
    fst (transaction_details Sample.message "0x01" (Sample.start 1000 tt))
    = inr (DetailsFound r)
    /\ fst (transaction_details Sample.message "0x01" (Sample.start 2000 tt))
       = inr (DetailsFound r')
    /\ det_timestamp r = Date_now 1000
    /\ det_timestamp r' = Date_now 2000
    /\ chain_fields r = chain_fields r'
    /\ (Date_now 1000 <> Date_now 2000 -> det_timestamp r <> det_timestamp r')
    /\ trace (snd (transaction_details Sample.message "0x01" (Sample.start 1000 tt)))
       = trace (Sample.start 1000 tt)
           ++ [GetTransaction "0x01"; GetTransactionReceipt "0x01"].
Proof.
  apply (details_timestamp_is_server_time Sample.message "0x01"
           (Sample.start 1000 tt) (Sample.start 2000 tt)
           Sample.transfer Sample.receipt 1000 1000 2000 2000);
    reflexivity.
Defined.

(** ** Failures inside the walks *)

Section WalkFailures.

Variable message : Fault -> string.
Context {World : Type} `{Client World}.


End WalkFailures.

(** * Further properties *)

(** ** apriori-mon-stake: faults and the submitted request *)

Section StakeOutcomes.

Variable round : string -> Z.
Variable message : Fault -> string.
Variable sender : string.
Context {World : Type} `{Client World}.

Lemma stake_call_fault (operation : Operation) (amount requestId : option string)
      (e : Fault) :
  stake_argument round operation amount requestId = inl e ->
  stake_call round sender operation amount requestId = inl e.
Proof.
  unfold stake_argument, stake_call.
  destruct operation; intros ->; reflexivity.
Qed.

(** X1: a parameter that is present but cannot be read as a number (an
    amount that is no decimal number, a request id that [BigInt] refuses) is
    reported as ["Apriori <operation> failed: ..."] with the fault's
    message, and nothing is submitted: world and trace stay as they were.
    A request id is taken to be ASCII text, on which [BigInt.of_string] is
    the language's [BigInt]; an amount may be any text. *)
Theorem unreadable_parameter_is_reported
        (operation : Operation) (amount requestId : option string)
        (e : Fault) (s : Store World unit) :
  Js.truthy (required_parameter operation amount requestId) = true ->
  (needs_requestId operation = true ->
   ascii_text (default "" requestId) = true) ->
  stake_argument round operation amount requestId = inl e ->
  apriori_mon_stake round message sender operation amount requestId s
  = (inr ("Apriori " +:+ operation_text operation +:+ " failed: " +:+ message e),
     s).
Proof.
  intros Hpresent _ Hfault.
  pose proof (stake_guard operation amount requestId) as Hguard.
  rewrite Hpresent in Hguard. cbn in Hguard.
  apply orb_false_iff in Hguard as [Hg1 Hg2].
  unfold apriori_mon_stake, try_catch, bind, lift, ret.
  rewrite Hg1, Hg2, (stake_call_fault operation amount requestId e Hfault).
  destruct s. reflexivity.
Qed.

(** X2: a stake call that gets past validation and parsing makes exactly one
    submission, to the staking contract.  A deposit attaches the scaled
    amount as value with gas limit 500000; unstake and redeem attach no
    value, with gas limit 800000.  If the wallet rejects the request the
    answer is the failure text with the wallet's message, and there is no
    second attempt. *)
Theorem stake_submission_is_single
        (operation : Operation) (amount requestId : option string)
        (n : Z) (s : Store World unit) :
  Js.truthy (required_parameter operation amount requestId) = true ->
  stake_argument round operation amount requestId = inr n ->
  exists request,
    trace (snd (apriori_mon_stake round message sender
                  operation amount requestId s))
    = trace s ++ [SendTransaction request]
    /\ req_to request = contractAddress
    /\ req_value request = match operation with deposit => n | _ => 0 end
    /\ req_gas request = match operation with
                         | deposit => 500000
                         | _ => 800000
                         end
    /\ forall e,
        fst (sendTransaction request (world s)) = inl e ->
        fst (apriori_mon_stake round message sender
               operation amount requestId s)
        = inr ("Apriori " +:+ operation_text operation +:+ " failed: "
                 +:+ message e).
Proof.
  intros Hpresent Harg.
  destruct (stake_call_of_argument round sender operation amount requestId n Harg)
    as (call & Hcall & _).
  exists (submission call).
  split; [now apply stake_submits_trace |].
  assert (Hfields : value call = match operation with deposit => n | _ => 0 end
                    /\ gasLimit call = match operation with
                                       | deposit => 500000
                                       | _ => 800000
                                       end).
  { unfold stake_call, stake_argument in *.
    destruct operation; rewrite Harg in Hcall; cbn [result_bind] in Hcall;
      injection Hcall as <-; split; reflexivity. }
  destruct Hfields as [Hvalue Hgas].
  split; [reflexivity |].
  split; [exact Hvalue |].
  split; [exact Hgas |].
  intros e Hreject.
  rewrite (stake_submits round message sender operation amount requestId call s
             Hpresent Hcall).
  cbv zeta. now rewrite Hreject.
Qed.

End StakeOutcomes.

Lemma unreadable_parameter_is_reported_witness :
  apriori_mon_stake Sample.round Sample.message Sample.address
    redeem None (Some "12x") (Sample.start 0 tt)
  = (inr ("Apriori " +:+ operation_text redeem +:+ " failed: "
            +:+ Sample.message (SyntaxError "12x")),
     Sample.start 0 tt).
Proof.
  apply (unreadable_parameter_is_reported Sample.round Sample.message
           Sample.address redeem None (Some "12x")
           (SyntaxError "12x") (Sample.start 0 tt)).
  - reflexivity.
  - intros _. reflexivity.
  - reflexivity.
Defined.

Lemma stake_submission_is_single_witness :
  exists request,
    trace (snd (apriori_mon_stake Sample.round Sample.message Sample.address
                  deposit (Some "1.5") None (Sample.start 0 tt)))
    = trace (Sample.start 0 tt) ++ [SendTransaction request]
    /\ req_to request = contractAddress
    /\ req_value request = match deposit with
                           | deposit => 1500000000000000000
                           | _ => 0
                           end
    /\ req_gas request = match deposit with
                         | deposit => 500000
                         | _ => 800000
                         end
    /\ forall e,
        fst (sendTransaction request (world (Sample.start 0 tt))) = inl e ->
        fst (apriori_mon_stake Sample.round Sample.message Sample.address
               deposit (Some "1.5") None (Sample.start 0 tt))
        = inr ("Apriori " +:+ operation_text deposit +:+ " failed: "
                 +:+ Sample.message e).
Proof.
  apply (stake_submission_is_single Sample.round Sample.message Sample.address
           deposit (Some "1.5") None 1500000000000000000 (Sample.start 0 tt));
    reflexivity.
Defined.

(** ** send-mon *)

Section SendMonFacts.

Variable round : string -> Z.
Variable message : Fault -> string.
Context {World : Type} `{Client World}.

Lemma send_mon_run (to amount : string) (s : Store World unit) :
  send_mon round message to amount s
  = match Units.parseUnits round amount 18 with
    | inl e => (inr ("Failed to send MON. Error: " +:+ message e), s)
    | inr value =>
        let request := transfer_request to value in
        let sent := sendTransaction request (world s) in
        (inr match fst sent with
             | inl e => "Failed to send MON. Error: " +:+ message e
             | inr hash =>
                 "Sent " +:+ amount +:+ " MON to " +:+ to
                   +:+ ". Transaction hash: " +:+ hash
             end,
         mkStore (snd sent) (trace s ++ [SendTransaction request]) (locals s))
    end.
Proof.
  unfold send_mon, try_catch, bind, lift, await, ret.
  destruct (Units.parseUnits round amount 18) as [e | value];
    [destruct s; reflexivity |].
  cbv zeta.
  destruct (sendTransaction (transfer_request to value) (world s))
    as [[e | hash] w]; reflexivity.
Qed.

(** X14: send-mon with an amount written as decimal digits with at most 18
    fraction digits makes exactly one submission: to the recipient as it was
    typed, with the amount scaled by 10^18 without rounding as its value.
    The answer is the success text with the wallet's hash, or the failure
    text with the wallet's message when the wallet refuses. *)
Theorem transfer_value_is_exact
        (to amount i f : string) (vi vf : Z) (s : Store World unit) :
  Digits.value 10 i = Some vi ->
  Digits.value 10 f = Some vf ->
  (String.length f <= 18)%nat ->
  amount = i +:+ "." +:+ f \/ (amount = i /\ f = "") ->
  exists request,
    request = transfer_request to
                (vi * 10 ^ 18 + vf * 10 ^ (18 - Z.of_nat (String.length f)))
    /\ trace (snd (send_mon round message to amount s))
       = trace s ++ [SendTransaction request]
    /\ (forall hash,
           fst (sendTransaction request (world s)) = inr hash ->
           fst (send_mon round message to amount s)
           = inr ("Sent " +:+ amount +:+ " MON to " +:+ to
                    +:+ ". Transaction hash: " +:+ hash))
    /\ (forall e,
           fst (sendTransaction request (world s)) = inl e ->
           fst (send_mon round message to amount s)
           = inr ("Failed to send MON. Error: " +:+ message e)).
Proof.
  intros Hi Hf Hlen Hamount.
  eexists. split; [reflexivity |].
  rewrite send_mon_run.
  rewrite (parseUnits_exact round i f vi vf amount Hi Hf Hlen Hamount).
  cbv zeta. cbn [fst snd trace].
  split_and!.
  - reflexivity.
  - intros hash ->. reflexivity.
  - intros e ->. reflexivity.
Qed.

(** X15: send-mon with an amount that is not a decimal number (an optional
    minus sign, digits, an optional dot, digits) submits nothing: the answer
    is the failure text with the library's message, and world and trace stay
    as they were. *)
Theorem non_decimal_amount_is_not_sent
        (to amount : string) (s : Store World unit) :
  Units.is_decimal_number amount = false ->
  send_mon round message to amount s
  = (inr ("Failed to send MON. Error: "
            +:+ message (InvalidDecimalNumberError amount)),
     s).
Proof.
  intros Hshape. rewrite send_mon_run.
  unfold Units.parseUnits. rewrite Hshape. reflexivity.
Qed.

End SendMonFacts.

Lemma transfer_value_is_exact_witness :
  exists request,
    request = transfer_request Sample.other
                (1 * 10 ^ 18 + 5 * 10 ^ (18 - Z.of_nat (String.length "5")))
    /\ trace (snd (send_mon Sample.round Sample.message Sample.other "1.5"
                     (Sample.start 0 tt)))
       = trace (Sample.start 0 tt) ++ [SendTransaction request]
    /\ (forall hash,
           fst (sendTransaction request (world (Sample.start 0 tt))) = inr hash ->
           fst (send_mon Sample.round Sample.message Sample.other "1.5"
                  (Sample.start 0 tt))
           = inr ("Sent " +:+ "1.5" +:+ " MON to " +:+ Sample.other
                    +:+ ". Transaction hash: " +:+ hash))
    /\ (forall e,
           fst (sendTransaction request (world (Sample.start 0 tt))) = inl e ->
           fst (send_mon Sample.round Sample.message Sample.other "1.5"
                  (Sample.start 0 tt))
           = inr ("Failed to send MON. Error: " +:+ Sample.message e)).
Proof.
  apply (transfer_value_is_exact Sample.round Sample.message
           Sample.other "1.5" "1" "5" 1 5 (Sample.start 0 tt)).
  - reflexivity.
  - reflexivity.
  - cbn. lia.
  - left. reflexivity.
Defined.

Lemma non_decimal_amount_is_not_sent_witness :
  send_mon Sample.round Sample.message Sample.other "1e18" (Sample.start 0 tt)
  = (inr ("Failed to send MON. Error: "
            +:+ Sample.message (InvalidDecimalNumberError "1e18")),
     Sample.start 0 tt).
Proof.
  apply (non_decimal_amount_is_not_sent Sample.round Sample.message
           Sample.other "1e18" (Sample.start 0 tt)).
  reflexivity.
Defined.

(** ** Faults never leave a handler *)

Section Handlers.

Variable round : string -> Z.
Variable message : Fault -> string.
Variable sender : string.
Context {World : Type} `{Client World}.

Lemma monad_network_info_run (s : Store World unit) :
  monad_network_info message s
  = let head := getBlockNumber (world s) in
    let t1 := trace s ++ [GetBlockNumber] in
    match fst head with
    | inl e =>
        (inr (NetworkFailure
                ("Failed to retrieve Monad network information. Error: "
                   +:+ message e)),
         mkStore (snd head) t1 (locals s))
    | inr blockNumber =>
        let chain := getChainId (snd head) in
        let t2 := t1 ++ [GetChainId] in
        match fst chain with
        | inl e =>
            (inr (NetworkFailure
                    ("Failed to retrieve Monad network information. Error: "
                       +:+ message e)),
             mkStore (snd chain) t2 (locals s))
        | inr chainId =>
            let price := getGasPrice (snd chain) in
            let t3 := t2 ++ [GetGasPrice] in
            match fst price with
            | inl e =>
                (inr (NetworkFailure
                        ("Failed to retrieve Monad network information. Error: "
                           +:+ message e)),
                 mkStore (snd price) t3 (locals s))
            | inr gasPrice =>
                (inr (NetworkFound {| net_chainId := chainId;
                                      net_currentBlock := blockNumber;
                                      net_gasPrice := formatUnits gasPrice 9 |}),
                 mkStore (snd price) t3 (locals s))
            end
        end
    end.
Proof.
  unfold monad_network_info, try_catch, bind, await, ret. cbn.
  destruct (getBlockNumber (world s)) as [[e | blockNumber] w];
    cbn; [reflexivity |].
  destruct (getChainId w) as [[e | chainId] w2]; cbn; [reflexivity |].
  destruct (getGasPrice w2) as [[e | gasPrice] w3]; reflexivity.
Qed.

Lemma stake_returns (operation : Operation) (amount requestId : option string)
      (s : Store World unit) :
  exists text,
    fst (apriori_mon_stake round message sender operation amount requestId s)
    = inr text.
Proof.
  unfold apriori_mon_stake, try_catch, bind, lift, await, ret.
  destruct (needs_amount operation && negb (Js.truthy amount));
    [eexists; reflexivity |].
  destruct (needs_requestId operation && negb (Js.truthy requestId));
    [eexists; reflexivity |].
  destruct (stake_call round sender operation amount requestId) as [e | call];
    [eexists; reflexivity |].
  cbn.
  destruct (sendTransaction (submission call) (world s)) as [[e | hash] w];
    eexists; reflexivity.
Qed.

(** X3: whatever the node, the wallet and the libraries do, no fault leaves
    a tool handler: each of the six handlers ends with a result for its
    caller, the report or the text of the failure. *)
Theorem handlers_catch_every_fault :
  (forall operation amount requestId (s : Store World unit),
      exists text,
        fst (apriori_mon_stake round message sender operation amount requestId s)
        = inr text)
  /\ (forall address limit (s : Store World HistoryVars),
         exists outcome,
           fst (account_transaction_history message address limit s)
           = inr outcome)
  /\ (forall blocks (s : Store World StatsVars),
         exists outcome, fst (chain_statistics message blocks s) = inr outcome)
  /\ (forall hash (s : Store World unit),
         exists outcome, fst (transaction_details message hash s) = inr outcome)
  /\ (forall s : Store World unit,
         exists outcome, fst (monad_network_info message s) = inr outcome)
  /\ (forall to amount (s : Store World unit),
         exists text, fst (send_mon round message to amount s) = inr text).
Proof.
  split_and!.
  - apply stake_returns.
  - intros address limit s. rewrite account_transaction_history_run. cbv zeta.
    destruct (fst (getTransactionCount address (world s)));
      [eexists; reflexivity |].
    destruct (fst (getBlockNumber _)); eexists; reflexivity.
  - intros blocks s. rewrite chain_statistics_run. cbv zeta.
    destruct (fst (getBlockNumber (world s))); [eexists; reflexivity |].
    destruct (fst (getChainId _)); [eexists; reflexivity |].
    destruct (fst (getGasPrice _)); eexists; reflexivity.
  - intros hash s. rewrite transaction_details_run. cbv zeta.
    destruct (fst (getTransaction hash (world s))); [eexists; reflexivity |].
    destruct (fst (getTransactionReceipt hash _)); eexists; reflexivity.
  - intros s. rewrite monad_network_info_run. cbv zeta.
    destruct (fst (getBlockNumber (world s))); [eexists; reflexivity |].
    destruct (fst (getChainId _)); [eexists; reflexivity |].
    destruct (fst (getGasPrice _)); eexists; reflexivity.
  - intros to amount s. rewrite send_mon_run.
    destruct (Units.parseUnits round amount 18); eexists; reflexivity.
Qed.

(** X4: a read-only report stops at the first request the node refuses.  The
    network report asks for the block number, the chain id and the gas price
    in this order, and the details report for the transaction and then its
    receipt; after a refusal no further request is made, and the answer is
    the failure text with the node's message.  When all three requests of
    the network report are answered, the report carries the three answers,
    the gas price in Gwei. *)
Theorem reports_stop_at_first_refusal :
  (forall (s : Store World unit) e w,
      getBlockNumber (world s) = (inl e, w) ->
      monad_network_info message s
      = (inr (NetworkFailure
                ("Failed to retrieve Monad network information. Error: "
                   +:+ message e)),
         mkStore w (trace s ++ [GetBlockNumber]) (locals s)))
  /\ (forall (s : Store World unit) blockNumber w e w2,
         getBlockNumber (world s) = (inr blockNumber, w) ->
         getChainId w = (inl e, w2) ->
         monad_network_info message s
         = (inr (NetworkFailure
                   ("Failed to retrieve Monad network information. Error: "
                      +:+ message e)),
            mkStore w2 (trace s ++ [GetBlockNumber; GetChainId]) (locals s)))
  /\ (forall (s : Store World unit) blockNumber w chainId w2 e w3,
         getBlockNumber (world s) = (inr blockNumber, w) ->
         getChainId w = (inr chainId, w2) ->
         getGasPrice w2 = (inl e, w3) ->
         monad_network_info message s
         = (inr (NetworkFailure
                   ("Failed to retrieve Monad network information. Error: "
                      +:+ message e)),
            mkStore w3 (trace s ++ [GetBlockNumber; GetChainId; GetGasPrice])
                    (locals s)))
  /\ (forall (s : Store World unit) blockNumber w chainId w2 gasPrice w3,
         getBlockNumber (world s) = (inr blockNumber, w) ->
         getChainId w = (inr chainId, w2) ->
         getGasPrice w2 = (inr gasPrice, w3) ->
         monad_network_info message s
         = (inr (NetworkFound {| net_chainId := chainId;
                                 net_currentBlock := blockNumber;
                                 net_gasPrice := formatUnits gasPrice 9 |}),
            mkStore w3 (trace s ++ [GetBlockNumber; GetChainId; GetGasPrice])
                    (locals s)))
  /\ (forall hash (s : Store World unit) e w,
         getTransaction hash (world s) = (inl e, w) ->
         transaction_details message hash s
         = (inr (DetailsFailure
                   ("Failed to retrieve transaction details for hash: "
                      +:+ hash +:+ ". Error: " +:+ message e)),
            mkStore w (trace s ++ [GetTransaction hash]) (locals s)))
  /\ (forall hash (s : Store World unit) transaction w e w2,
         getTransaction hash (world s) = (inr transaction, w) ->
         getTransactionReceipt hash w = (inl e, w2) ->
         transaction_details message hash s
         = (inr (DetailsFailure
                   ("Failed to retrieve transaction details for hash: "
                      +:+ hash +:+ ". Error: " +:+ message e)),
            mkStore w2
              (trace s ++ [GetTransaction hash; GetTransactionReceipt hash])
              (locals s))).
Proof.
  split_and!.
  - intros s e w Hhead. rewrite monad_network_info_run. cbv zeta.
    now rewrite Hhead.
  - intros s blockNumber w e w2 Hhead Hchain.
    rewrite monad_network_info_run. cbv zeta.
    rewrite Hhead. cbn [fst snd]. rewrite Hchain. cbn [fst snd].
    now rewrite <- app_assoc.
  - intros s blockNumber w chainId w2 e w3 Hhead Hchain Hprice.
    rewrite monad_network_info_run. cbv zeta.
    rewrite Hhead. cbn [fst snd]. rewrite Hchain. cbn [fst snd].
    rewrite Hprice. cbn [fst snd].
    now rewrite <- !app_assoc.
  - intros s blockNumber w chainId w2 gasPrice w3 Hhead Hchain Hprice.
    rewrite monad_network_info_run. cbv zeta.
    rewrite Hhead. cbn [fst snd]. rewrite Hchain. cbn [fst snd].
    rewrite Hprice. cbn [fst snd].
    now rewrite <- !app_assoc.
  - intros hash s e w Hfound. rewrite transaction_details_run. cbv zeta.
    now rewrite Hfound.
  - intros hash s transaction w e w2 Hfound Hreceipt.
    rewrite transaction_details_run. cbv zeta.
    rewrite Hfound. cbn [fst snd]. rewrite Hreceipt. cbn [fst snd].
    now rewrite <- app_assoc.
Qed.

End Handlers.

Lemma reports_stop_at_first_refusal_witness :
  monad_network_info Sample.message (Rationed.start 2 tt)
  = (inr (NetworkFailure
            ("Failed to retrieve Monad network information. Error: "
               +:+ Sample.message (UpstreamError "request refused"))),
     mkStore 0%nat
       (trace (Rationed.start 2 tt) ++ [GetBlockNumber; GetChainId; GetGasPrice])
       (locals (Rationed.start 2 tt))).
Proof.
  apply (proj1 (proj2 (proj2
           (reports_stop_at_first_refusal Sample.message)))
           (Rationed.start 2 tt) 100 1%nat 10143 0%nat
           (UpstreamError "request refused") 0%nat).
  - reflexivity.
  - reflexivity.
  - reflexivity.
Defined.

(** ** The reading tools never reach the wallet *)

Section ReadingTools.

Variable message : Fault -> string.
Context {World : Type} `{Client World}.

Lemma read_only_app (xs ys : list Event) :
  read_only xs -> read_only ys -> read_only (xs ++ ys).
Proof. intros Hx Hy. apply Forall_app. split; assumption. Qed.

Lemma read_only_one (e : Event) : is_submission e = false -> read_only [e].
Proof. intros He. apply Forall_cons. split; [exact He | apply Forall_nil_2]. Qed.

Lemma process_transactions_reads (address : string) (limit : Z) (block : Block)
      (txs : list Transaction) (s : Store World HistoryVars) :
  exists events,
    trace (snd (process_transactions address limit block txs s)) = trace s ++ events
    /\ read_only events.
Proof.
  revert s. induction txs as [|tx rest IH]; intros s.
  - exists []. split; [now rewrite app_nil_r | apply Forall_nil_2].
  - rewrite process_transactions_cons.
    destruct (bool_decide (tx_hash tx ∈ processed (locals s))
              || (limit <=? Z.of_nat (length (transactions (locals s)))));
      [apply IH |].
    destruct (involves_address address tx); [| apply IH].
    cbv zeta.
    destruct (getTransactionReceipt (tx_hash tx) (world s)) as [[e | receipt] w];
      cbn [fst snd].
    + exists [GetTransactionReceipt (tx_hash tx)].
      split; [reflexivity | now apply read_only_one].
    + destruct (toISOString (block_timestamp block)) as [e | timestamp].
      * exists [GetTransactionReceipt (tx_hash tx)].
        split; [reflexivity | now apply read_only_one].
      * destruct (IH (mkStore w
                        (trace s ++ [GetTransactionReceipt (tx_hash tx)])
                        {| transactions :=
                             transactions (locals s)
                               ++ [activity_record block tx receipt timestamp];
                           processed := {[ tx_hash tx ]} ∪ processed (locals s);
                           currentBlock := currentBlock (locals s) |}))
          as (events & -> & Hread).
        exists ([GetTransactionReceipt (tx_hash tx)] ++ events).
        split; [cbn [trace]; now rewrite <- app_assoc |].
        apply read_only_app; [now apply read_only_one | exact Hread].
Qed.

Lemma history_iteration_reads (address : string) (limit : Z)
      (s : Store World HistoryVars) :
  exists events,
    trace (snd (history_iteration address limit s)) = trace s ++ events
    /\ read_only events.
Proof.
  rewrite history_iteration_run, history_block_run. cbv zeta.
  destruct (getBlock (currentBlock (locals s)) true (world s))
    as [[e | block] w]; cbn [fst snd].
  - eexists. cbn [trace]. split; [rewrite <- app_assoc; reflexivity |].
    apply read_only_app; now apply read_only_one.
  - destruct (process_transactions_reads address limit block
                (block_transactions block)
                (mkStore w (trace s ++ [GetBlock (currentBlock (locals s)) true])
                         (locals s)))
      as (events & Htrace & Hread).
    cbn [trace] in Htrace.
    destruct (process_transactions address limit block (block_transactions block) _)
      as [[e | []] s2]; cbn [fst snd trace] in *; rewrite Htrace.
    + eexists. split; [rewrite <- !app_assoc; reflexivity |].
      apply read_only_app; [now apply read_only_one |].
      apply read_only_app; [exact Hread | now apply read_only_one].
    + eexists. split; [rewrite <- !app_assoc; reflexivity |].
      apply read_only_app; [now apply read_only_one | exact Hread].
Qed.

Lemma history_loop_reads (address : string) (limit : Z) (remaining : nat)
      (s : Store World HistoryVars) :
  exists events,
    trace (snd (history_loop address limit remaining s)) = trace s ++ events
    /\ read_only events.
Proof.
  revert s. induction remaining as [|remaining IH]; intros s.
  - exists []. split; [now rewrite app_nil_r | apply Forall_nil_2].
  - cbn [history_loop]. unfold bind, get. cbn beta iota.
    destruct (Z.of_nat (length (transactions (locals s))) <? limit).
    + destruct (history_iteration_reads address limit s) as (e1 & He1 & Hr1).
      destruct (history_iteration_step address limit s) as (s1 & Hrun & _).
      rewrite Hrun in He1 |- *. cbn [snd] in He1.
      destruct (IH s1) as (e2 & He2 & Hr2).
      exists (e1 ++ e2).
      split; [now rewrite He2, He1, app_assoc | now apply read_only_app].
    + exists []. split; [now rewrite app_nil_r | apply Forall_nil_2].
Qed.

Lemma stats_loop_reads (blocks : Z) (latestBlock : Z) (fuel : nat) (i : Z)
      (s : Store World StatsVars) :
  exists events,
    trace (snd (stats_loop blocks fuel latestBlock i s)) = trace s ++ events
    /\ read_only events.
Proof.
  revert i s. induction fuel as [|fuel IH]; intros i s.
  - exists []. split; [now rewrite app_nil_r | apply Forall_nil_2].
  - destruct (Z.lt_ge_cases i (Z.min blocks 10)) as [Hlt | Hge].
    + rewrite (stats_loop_next blocks fuel latestBlock i s Hlt).
      destruct (IH (i + 1) (snd (stats_iteration latestBlock i s)))
        as (e2 & -> & Hr2).
      assert (Hturn : exists e1,
                 trace (snd (stats_iteration latestBlock i s)) = trace s ++ e1
                 /\ read_only e1).
      { rewrite stats_iteration_run, stats_block_run. cbv zeta.
        destruct (getBlock (latestBlock - i) false (world s)) as [[e | info] w];
          cbn [fst snd trace].
        - eexists. split; [rewrite <- app_assoc; reflexivity |].
          apply read_only_app; now apply read_only_one.
        - destruct (getBlock (latestBlock - i) true w) as [[e | full] w2];
            cbn [fst snd trace].
          + eexists. split; [rewrite <- !app_assoc; reflexivity |].
            apply read_only_app; [now apply read_only_one |].
            apply read_only_app; now apply read_only_one.
          + eexists. split; [rewrite <- app_assoc; reflexivity |].
            apply read_only_app; now apply read_only_one. }
      destruct Hturn as (e1 & -> & Hr1).
      exists (e1 ++ e2). split; [now rewrite app_assoc | now apply read_only_app].
    + cbn [stats_loop]. apply Z.ltb_ge in Hge. rewrite Hge.
      exists []. split; [now rewrite app_nil_r | apply Forall_nil_2].
Qed.

(** X12: the four reading tools (network information, transaction details,
    account history, chain statistics) never hand a transaction to the
    wallet: whatever the node answers, every request they add to the trace
    is a read of the node or a line on the diagnostic stream. *)
Theorem reading_tools_submit_nothing :
  (forall s : Store World unit,
      exists events,
        trace (snd (monad_network_info message s)) = trace s ++ events
        /\ read_only events)
  /\ (forall hash (s : Store World unit),
         exists events,
           trace (snd (transaction_details message hash s)) = trace s ++ events
           /\ read_only events)
  /\ (forall address limit (s : Store World HistoryVars),
         exists events,
           trace (snd (account_transaction_history message address limit s))
           = trace s ++ events
           /\ read_only events)
  /\ (forall blocks (s : Store World StatsVars),
         exists events,
           trace (snd (chain_statistics message blocks s)) = trace s ++ events
           /\ read_only events).
Proof.
  split_and!.
  - intros s. rewrite monad_network_info_run. cbv zeta.
    destruct (fst (getBlockNumber (world s))); cbn [snd trace].
    + eexists. split; [reflexivity | now apply read_only_one].
    + destruct (fst (getChainId _)); cbn [snd trace].
      * eexists. split; [rewrite <- app_assoc; reflexivity |].
        apply read_only_app; now apply read_only_one.
      * destruct (fst (getGasPrice _)); cbn [snd trace];
          (eexists; split; [rewrite <- !app_assoc; reflexivity |]);
          (apply read_only_app; [now apply read_only_one |]);
          apply read_only_app; now apply read_only_one.
  - intros hash s. rewrite transaction_details_run. cbv zeta.
    destruct (fst (getTransaction hash (world s))); cbn [snd trace].
    + eexists. split; [reflexivity | now apply read_only_one].
    + destruct (fst (getTransactionReceipt hash _)); cbn [snd trace];
        (eexists; split; [rewrite <- app_assoc; reflexivity |]);
        apply read_only_app; now apply read_only_one.
  - intros address limit s. rewrite account_transaction_history_run. cbv zeta.
    destruct (getTransactionCount address (world s)) as [[e | n] w];
      cbn [fst snd trace].
    + eexists. split; [reflexivity | now apply read_only_one].
    + destruct (getBlockNumber w) as [[e | latestBlock] w2]; cbn [fst snd trace].
      * eexists. split; [rewrite <- app_assoc; reflexivity |].
        apply read_only_app; now apply read_only_one.
      * destruct (history_loop_reads address limit blocksToSearch
                    (mkStore w2
                       ((trace s ++ [GetTransactionCount address])
                          ++ [GetBlockNumber])
                       {| transactions := []; processed := ∅;
                          currentBlock := latestBlock |}))
          as (events & -> & Hread).
        eexists. cbn [trace]. split; [rewrite <- !app_assoc; reflexivity |].
        apply read_only_app; [now apply read_only_one |].
        apply read_only_app; [now apply read_only_one | exact Hread].
  - intros blocks s. rewrite chain_statistics_run. cbv zeta.
    destruct (getBlockNumber (world s)) as [[e | latestBlock] w];
      cbn [fst snd].
    + eexists. cbn [trace]. split; [reflexivity | now apply read_only_one].
    + destruct (stats_loop_reads blocks latestBlock 10 0
                  (mkStore w (trace s ++ [GetBlockNumber])
                           {| totalTransactions := 0; uniqueAddresses := ∅ |}))
        as (events & Htrace & Hread).
      set (walked := snd (stats_loop blocks 10 latestBlock 0 _)) in *.
      cbn [trace] in Htrace.
      destruct (fst (getChainId (world walked))); cbn [snd trace].
      * eexists. rewrite Htrace. split; [rewrite <- !app_assoc; reflexivity |].
        apply read_only_app; [now apply read_only_one |].
        apply read_only_app; [exact Hread | now apply read_only_one].
      * destruct (fst (getGasPrice _)); cbn [snd trace]; rewrite Htrace;
          (eexists; split; [rewrite <- !app_assoc; reflexivity |]);
          (apply read_only_app; [now apply read_only_one |]);
          (apply read_only_app; [exact Hread |]);
          apply read_only_app; now apply read_only_one.
Qed.

End ReadingTools.

(** ** swap-mon: token resolution *)

Section TokenTable.

Lemma token_entries (k a : string) :
  Swap.TOKEN_ADDRESSES !! k = Some a ->
  (k = "USDC" /\ a = "0xf817257fed379853cDe0fa4F97AB987181B1E5Ea")
  \/ (k = "USDT" /\ a = "0x88b8E2161DEDC77EF4ab7585569D2415a1C1055D")
  \/ (k = "DAK" /\ a = "0x0F0BDEbF0F83cD1EE3974779Bcb7315f9808c714")
  \/ (k = "CHOG" /\ a = "0xE0590015A873bF326bd645c3E1266d4db41C4E6B")
  \/ (k = "YAKI" /\ a = "0xfe140e1dCe99Be9F4F15d657CD9b7BF622270C50").
Proof.
  unfold Swap.TOKEN_ADDRESSES. rewrite !lookup_insert.
  repeat case_decide; rewrite ?lookup_empty; intros [= <-]; subst; tauto.
Qed.

Lemma upper_address (t : string) :
  Js.startsWith "0x" t = true ->
  Swap.TOKEN_ADDRESSES !! Swap.toUpperCase t = None.
Proof.
  intros Hprefix.
  destruct t as [|c0 t]; [discriminate |].
  cbn [Js.startsWith] in Hprefix.
  apply andb_true_iff in Hprefix as [Hc0 _].
  apply Ascii.eqb_eq in Hc0. subst c0.
  destruct (Swap.TOKEN_ADDRESSES !! Swap.toUpperCase (String "0" t))
    as [a|] eqn:Elookup; [| reflexivity].
  apply token_entries in Elookup. cbn [Swap.toUpperCase] in Elookup.
  destruct Elookup as [[Hk _] | [[Hk _] | [[Hk _] | [[Hk _] | [Hk _]]]]];
    discriminate Hk.
Qed.

(** X5: token resolution in swap-mon.  A token given as a [0x] address is
    used as it is.  A token given by a symbol of the table resolves to the
    table's address in any letter case, and that address is a well-formed
    20-byte address.  Resolving twice changes nothing: no listed address is
    itself a symbol. *)
Theorem token_resolution (t : string) :
  (Js.startsWith "0x" t = true -> Swap.finalTokenAddress t = t)
  /\ (forall a,
         Swap.TOKEN_ADDRESSES !! Swap.toUpperCase t = Some a ->
         is_address a = true
         /\ forall u,
             Swap.toUpperCase u = Swap.toUpperCase t ->
             Swap.finalTokenAddress u = a)
  /\ Swap.finalTokenAddress (Swap.finalTokenAddress t) = Swap.finalTokenAddress t.
Proof.
  split_and!.
  - intros Hprefix. unfold Swap.finalTokenAddress.
    now rewrite upper_address.
  - intros a Hlisted. split.
    + apply token_entries in Hlisted.
      destruct Hlisted as [[_ ->] | [[_ ->] | [[_ ->] | [[_ ->] | [_ ->]]]]];
        reflexivity.
    + intros u Hu. unfold Swap.finalTokenAddress. now rewrite Hu, Hlisted.
  - unfold Swap.finalTokenAddress at 2 3.
    destruct (Swap.TOKEN_ADDRESSES !! Swap.toUpperCase t) as [a|] eqn:Elookup.
    + unfold Swap.finalTokenAddress. rewrite upper_address; [reflexivity |].
      apply token_entries in Elookup.
      destruct Elookup as [[_ ->] | [[_ ->] | [[_ ->] | [[_ ->] | [_ ->]]]]];
        reflexivity.
    + unfold Swap.finalTokenAddress. now rewrite Elookup.
Qed.

End TokenTable.

(** ** Amount texts: what is shown can be typed back *)

Section AmountTexts.

Variable round : string -> Z.

Lemma digit_value_pretty_char (d : N) :
  (d < 10)%N -> Digits.digit_value 10 (pretty_N_char d) = Some (Z.of_N d).
Proof.
  intros Hd.
  assert (Hcases : (d = 0 \/ d = 1 \/ d = 2 \/ d = 3 \/ d = 4 \/ d = 5
                    \/ d = 6 \/ d = 7 \/ d = 8 \/ d = 9)%N) by lia.
  repeat (destruct Hcases as [-> | Hcases]; [reflexivity |]).
  subst d. reflexivity.
Qed.

(** The digits that [toString] writes in front of [s] have the value of the
    number. *)
Lemma value_pretty_N_go (x : N) (s : string) (vs : Z) :
  Digits.value 10 s = Some vs ->
  Digits.value 10 (pretty_N_go x s)
  = Some (Z.of_N x * 10 ^ Z.of_nat (String.length s) + vs).
Proof.
  revert s vs. induction (N.lt_wf_0 x) as [x _ IH]. intros s vs Hs.
  destruct (N.eq_dec x 0%N) as [-> | Hpos].
  - rewrite pretty_N_go_0, Hs. apply f_equal. change (Z.of_N 0) with 0. lia.
  - rewrite pretty_N_go_step by lia.
    assert (Hdigit : (x mod 10 < 10)%N) by (apply N.mod_lt; lia).
    rewrite (IH (x / 10)%N ltac:(apply N.div_lt; lia)
                (String (pretty_N_char (x mod 10)) s)
                (Z.of_N (x mod 10) * 10 ^ Z.of_nat (String.length s) + vs)).
    + f_equal. cbn [String.length].
      rewrite Nat2Z.inj_succ, Z.pow_succ_r by lia.
      rewrite N2Z.inj_div, N2Z.inj_mod.
      change (Z.of_N 10) with 10.
      pose proof (Z.div_mod (Z.of_N x) 10 ltac:(lia)) as Hsplit.
      nia.
    + unfold Digits.value in *. cbn [Digits.value_from].
      rewrite (digit_value_pretty_char _ Hdigit).
      rewrite value_from_shift, Hs. cbn [fmap option_fmap option_map].
      apply f_equal. rewrite Z.mul_0_l, Z.add_0_l. reflexivity.
Qed.

Lemma value_toString (n : Z) :
  0 <= n -> Digits.value 10 (BigInt.toString n) = Some n.
Proof.
  intros Hn. destruct n as [|p|p]; [reflexivity | | lia].
  unfold BigInt.toString, pretty, pretty_Z, pretty, pretty_positive,
    pretty, pretty_N.
  destruct (decide (N.pos p = 0%N)) as [Hzero | _]; [discriminate |].
  rewrite (value_pretty_N_go (N.pos p) "" 0 eq_refl).
  f_equal. cbn [String.length]. change (Z.of_N (N.pos p)) with (Z.pos p). lia.
Qed.

Lemma slice_parts (k : nat) (s : string) :
  Js.slice_to k s +:+ Js.slice_from k s = s.
Proof.
  revert s. induction k as [|k IH]; intros s; [reflexivity |].
  destruct s as [|c s]; [reflexivity |].
  cbn [Js.slice_to Js.slice_from String.append]. now rewrite IH.
Qed.

Lemma length_slice_from (k : nat) (s : string) :
  String.length (Js.slice_from k s) = (String.length s - k)%nat.
Proof.
  revert s. induction k as [|k IH]; intros s; [cbn; lia |].
  destruct s as [|c s]; [reflexivity |].
  cbn [Js.slice_from String.length]. rewrite IH. lia.
Qed.

Lemma value_padStart (k : nat) (s : string) (v : Z) :
  Digits.value 10 s = Some v ->
  Digits.value 10 (Js.padStart k "0" s) = Some v.
Proof.
  intros Hs. unfold Js.padStart, Digits.value.
  rewrite value_from_append, value_from_zeros by lia.
  rewrite Z.mul_0_l. exact Hs.
Qed.

(** X13: a non-negative amount shown by [formatUnits] with 18 decimals, as
    the history and details reports show values, is read back by
    [parseUnits] as the same number of wei: what a report prints can be
    typed into the staking tool without loss. *)
Theorem shown_amount_reads_back (n : Z) :
  0 <= n ->
  Units.parseUnits round (formatUnits n 18) 18 = inr n.
Proof.
  intros Hn. unfold formatUnits. cbv zeta.
  pose proof (value_toString n Hn) as Hdigits.
  assert (Hsign : Js.startsWith "-" (BigInt.toString n) = false).
  { rewrite <- (append_empty_r (BigInt.toString n)).
    apply no_minus_sign; [| reflexivity].
    exact (value_all_digits 10 _ n Hdigits). }
  rewrite Hsign.
  set (p := Js.padStart 18 "0" (BigInt.toString n)).
  assert (Hp : Digits.value 10 p = Some n) by now apply value_padStart.
  assert (Hlen : (18 <= String.length p)%nat).
  { unfold p. rewrite length_padStart. lia. }
  set (k := (String.length p - 18)%nat).
  unfold Js.slice. cbn [Js.slice_from].
  set (a := Js.slice_to k p).
  set (b := Js.slice_from k p).
  assert (Hparts : a +:+ b = p) by apply slice_parts.
  assert (Hb_len : String.length b = 18%nat).
  { unfold b. rewrite length_slice_from. unfold k. lia. }
  pose proof (value_all_digits 10 p n Hp) as Hall.
  rewrite <- Hparts, all_digits_append in Hall.
  apply andb_true_iff in Hall as [Hall_a Hall_b].
  destruct (all_digits_value 10 a Hall_a) as [va Hva].
  destruct (all_digits_value 10 b Hall_b) as [vb Hvb].
  assert (Hsum : n = va * 10 ^ 18 + vb).
  { pose proof (value_append 10 a b va vb Hva Hvb) as Hjoin.
    rewrite Hparts, Hp, Hb_len in Hjoin. now injection Hjoin. }
  destruct (trimmed_value b vb Hvb) as (vt & j & Hvt & Hscale & Hcut).
  set (t := Units.trim_trailing_zeros b) in *.
  assert (Hi : Digits.value 10 (if String.eqb a "" then "0" else a) = Some va).
  { destruct (String.eqb_spec a "") as [-> | _]; [| exact Hva].
    cbn in Hva. injection Hva as <-. reflexivity. }
  set (i := if String.eqb a "" then "0" else a) in *.
  cbn [String.append].
  destruct (String.eqb_spec t "") as [Hempty | Hfraction].
  - rewrite append_empty_r.
    rewrite (parseUnits_exact round i "" va 0 i Hi eq_refl ltac:(cbn; lia)
               (or_intror (conj eq_refl eq_refl))).
    f_equal. rewrite Hempty in Hvt. cbn in Hvt. injection Hvt as <-. lia.
  - rewrite (parseUnits_exact round i t va vt (i +:+ String "." t) Hi Hvt
               ltac:(lia) (or_introl eq_refl)).
    apply f_equal. rewrite Hsum, Hscale.
    replace (18 - Z.of_nat (String.length t)) with (Z.of_nat j) by lia.
    reflexivity.
Qed.

End AmountTexts.

Lemma shown_amount_reads_back_witness :
  Units.parseUnits Sample.round (formatUnits 1500000000000000000 18) 18
  = inr 1500000000000000000.
Proof.
  apply (shown_amount_reads_back Sample.round 1500000000000000000).
  lia.
Defined.

(** ** chain-statistics: the window and the address count *)

Section StatsWindow.

Context {World : Type} `{Client World}.
Variable blocks : Z.

Lemma requested_blocks_app (flag : bool) (xs ys : list Event) :
  requested_blocks flag (xs ++ ys)
  = requested_blocks flag xs ++ requested_blocks flag ys.
Proof. apply omap_app. Qed.

Lemma block_window_step (head offset : Z) (count : nat) :
  block_window head offset (S count)
  = (head - offset) :: block_window head (offset + 1) count.
Proof.
  unfold block_window. cbn [seq map]. f_equal; [f_equal; lia |].
  rewrite <- seq_shift, map_map.
  apply map_ext. intros j. f_equal. lia.
Qed.




Lemma size_add_one (a : string) (seen : gset string) :
  (size ({[ a ]} ∪ seen) <= S (size seen))%nat.
Proof.
  rewrite size_union_alt, size_singleton.
  assert (Hsub : seen ∖ {[ a ]} ⊆ seen) by apply subseteq_difference_l, reflexivity.
  apply subseteq_size in Hsub. lia.
Qed.

(** Every transaction adds at most two addresses. *)
Lemma size_add_addresses (txs : list Transaction) (seen : gset string) :
  (size (add_addresses txs seen) <= size seen + 2 * length txs)%nat.
Proof.
  unfold add_addresses. revert seen.
  induction txs as [|tx txs IH]; intros seen; [cbn; lia |].
  cbn [foldl length]. eapply Nat.le_trans; [apply IH |].
  pose proof (size_add_one (tx_from tx) seen) as Hfrom.
  destruct (Js.truthy (tx_to tx)).
  - pose proof (size_add_one (default "" (tx_to tx)) ({[ tx_from tx ]} ∪ seen)).
    lia.
  - lia.
Qed.

Lemma stats_iteration_counted (latestBlock i : Z) (s : Store World StatsVars) :
  counted (locals s) ->
  counted (locals (snd (stats_iteration latestBlock i s))).
Proof.
  intros [Hpos Hsize].
  rewrite stats_iteration_run, stats_block_run. cbv zeta.
  destruct (getBlock (latestBlock - i) false (world s)) as [[e | info] w];
    cbn [fst snd locals]; [split; assumption |].
  destruct (getBlock (latestBlock - i) true w) as [[e | full] w2];
    cbn [fst snd locals]; [split; assumption |].
  unfold counted. cbn [totalTransactions uniqueAddresses].
  pose proof (size_add_addresses (block_transactions full)
                (uniqueAddresses (locals s))).
  split; lia.
Qed.

Lemma stats_loop_counted (latestBlock : Z) (fuel : nat) (i : Z)
      (s : Store World StatsVars) :
  counted (locals s) ->
  counted (locals (snd (stats_loop blocks fuel latestBlock i s))).
Proof.
  revert i s. induction fuel as [|fuel IH]; intros i s Hc; [exact Hc |].
  destruct (Z.lt_ge_cases i (Z.min blocks 10)) as [Hlt | Hge].
  - rewrite (stats_loop_next blocks fuel latestBlock i s Hlt).
    apply IH, stats_iteration_counted, Hc.
  - cbn [stats_loop]. apply Z.ltb_ge in Hge. rewrite Hge. exact Hc.
Qed.

End StatsWindow.

Section StatsReportFacts.

Variable message : Fault -> string.
Context {World : Type} `{Client World}.


(** X7: in a statistics report the number of distinct addresses is at most
    twice the number of transactions counted, and the count is never
    negative; with [blocks] zero or negative both are zero. *)
Theorem statistics_counts_are_consistent
        (blocks : Z) (s : Store World StatsVars) (report : StatsReport) :
  fst (chain_statistics message blocks s) = inr (StatsFound report) ->
  0 <= stat_totalTransactions report
  /\ Z.of_nat (stat_uniqueAddresses report) <= 2 * stat_totalTransactions report
  /\ (blocks <= 0 ->
      stat_totalTransactions report = 0 /\ stat_uniqueAddresses report = 0%nat).
Proof.
  rewrite chain_statistics_run. cbv zeta.
  destruct (getBlockNumber (world s)) as [[e | latestBlock] w];
    cbn [fst snd]; [discriminate |].
  pose proof (stats_loop_counted blocks latestBlock 10 0
                (mkStore w (trace s ++ [GetBlockNumber])
                         {| totalTransactions := 0; uniqueAddresses := ∅ |}))
    as Hcounted.
  assert (Hnone : blocks <= 0 ->
            locals (snd (stats_loop blocks 10 latestBlock 0
                           (mkStore w (trace s ++ [GetBlockNumber])
                              {| totalTransactions := 0;
                                 uniqueAddresses := ∅ |})))
            = {| totalTransactions := 0; uniqueAddresses := ∅ |}).
  { intros Hle. cbn [stats_loop].
    assert (Hguard : (0 <? Z.min blocks 10) = false) by (apply Z.ltb_ge; lia).
    now rewrite Hguard. }
  set (walked := snd (stats_loop blocks 10 latestBlock 0 _)) in *.
  destruct (getChainId (world walked)) as [[e | chainId] w2];
    cbn [fst snd]; [discriminate |].
  destruct (getGasPrice w2) as [[e | gasPrice] w3];
    cbn [fst snd]; [discriminate |].
  intros [= <-]. cbn.
  destruct Hcounted as [Hpos Hsize].
  { split; cbn; [lia |]. rewrite size_empty. lia. }
  split_and!; [exact Hpos | exact Hsize |].
  intros Hle. rewrite (Hnone Hle). cbn. split; [reflexivity | apply size_empty].
Qed.

End StatsReportFacts.


Lemma statistics_counts_are_consistent_witness :
  0 <= stat_totalTransactions Sample.stats_report
  /\ Z.of_nat (stat_uniqueAddresses Sample.stats_report)
     <= 2 * stat_totalTransactions Sample.stats_report
  /\ (5 <= 0 ->
      stat_totalTransactions Sample.stats_report = 0
      /\ stat_uniqueAddresses Sample.stats_report = 0%nat).
Proof.
  apply (statistics_counts_are_consistent Sample.message 5
           (Sample.start 0 Sample.no_stats) Sample.stats_report).
  vm_compute. reflexivity.
Defined.

(** ** account-transaction-history: what the walk keeps *)

Section HistoryInvariant.

Context {World : Type} `{Client World}.
Variable address : string.
Variable limit : Z.

(** Two properties of the block pointer and the records in hand: [Q] holds
    between two turns of the loop, [R] while a block is scanned. *)
Variable Q R : Z -> list ActivityRecord -> Prop.

Hypothesis Q_scan : forall b found, Q b found -> R b found.

Hypothesis R_push :
  forall b found block tx receipt timestamp,
    R b found ->
    (exists w, fst (getBlock b true w) = inr block) ->
    In tx (block_transactions block) ->
    involves_address address tx = true ->
    toISOString (block_timestamp block) = inr timestamp ->
    R b (found ++ [activity_record block tx receipt timestamp]).

Hypothesis R_step : forall b found, R b found -> Q (b - 1) found.

Lemma process_transactions_invariant (block : Block) (txs : list Transaction)
      (s : Store World HistoryVars) :
  (exists w, fst (getBlock (currentBlock (locals s)) true w) = inr block) ->
  (forall tx, In tx txs -> In tx (block_transactions block)) ->
  R (currentBlock (locals s)) (transactions (locals s)) ->
  R (currentBlock (locals (snd (process_transactions address limit block txs s))))
    (transactions (locals (snd (process_transactions address limit block txs s)))).
Proof.
  revert s. induction txs as [|tx rest IH]; intros s Hserved Hin HR;
    [exact HR |].
  assert (Hrest : forall tx', In tx' rest -> In tx' (block_transactions block))
    by (intros tx' Hin'; apply Hin; right; exact Hin').
  rewrite process_transactions_cons.
  destruct (bool_decide (tx_hash tx ∈ processed (locals s))
            || (limit <=? Z.of_nat (length (transactions (locals s)))));
    [now apply IH |].
  destruct (involves_address address tx) eqn:Einvolves; [| now apply IH].
  cbv zeta.
  destruct (getTransactionReceipt (tx_hash tx) (world s)) as [[e | receipt] w];
    cbn [fst snd]; [exact HR |].
  destruct (toISOString (block_timestamp block)) as [e | timestamp] eqn:Etime;
    [exact HR |].
  apply IH; [exact Hserved | exact Hrest |].
  cbn [locals currentBlock transactions].
  apply R_push; try assumption. apply Hin. left. reflexivity.
Qed.

Lemma history_iteration_invariant (s : Store World HistoryVars) :
  Q (currentBlock (locals s)) (transactions (locals s)) ->
  Q (currentBlock (locals (snd (history_iteration address limit s))))
    (transactions (locals (snd (history_iteration address limit s)))).
Proof.
  intros HQ. pose proof (Q_scan _ _ HQ) as HR. rewrite history_iteration_run, history_block_run. cbv zeta.
  destruct (getBlock (currentBlock (locals s)) true (world s))
    as [[e | block] w] eqn:Efetch; cbn [fst snd].
  - cbn. apply R_step, HR.
  - pose proof (process_transactions_invariant block (block_transactions block)
                  (mkStore w (trace s ++ [GetBlock (currentBlock (locals s)) true])
                           (locals s))) as Hscan.
    cbn [locals] in Hscan.
    assert (Hkept : R (currentBlock (locals (snd (process_transactions
                         address limit block (block_transactions block)
                         (mkStore w
                            (trace s ++ [GetBlock (currentBlock (locals s)) true])
                            (locals s))))))
                      (transactions (locals (snd (process_transactions
                         address limit block (block_transactions block)
                         (mkStore w
                            (trace s ++ [GetBlock (currentBlock (locals s)) true])
                            (locals s))))))).
    { apply Hscan; [| tauto | exact HR].
      exists (world s). now rewrite Efetch. }
    destruct (process_transactions address limit block (block_transactions block) _)
      as [[e | []] s2]; cbn [fst snd] in *; cbn; apply R_step, Hkept.
Qed.

Lemma history_loop_invariant (remaining : nat) (s : Store World HistoryVars) :
  Q (currentBlock (locals s)) (transactions (locals s)) ->
  Q (currentBlock (locals (snd (history_loop address limit remaining s))))
    (transactions (locals (snd (history_loop address limit remaining s)))).
Proof.
  revert s. induction remaining as [|remaining IH]; intros s HR; [exact HR |].
  cbn [history_loop]. unfold bind, get. cbn beta iota.
  destruct (Z.of_nat (length (transactions (locals s))) <? limit); [| exact HR].
  pose proof (history_iteration_invariant s HR) as Hturn.
  destruct (history_iteration_step address limit s) as (s1 & Hrun & _).
  rewrite Hrun in Hturn |- *. cbn [snd] in Hturn.
  apply IH, Hturn.
Qed.

End HistoryInvariant.

Section HistoryReportFacts.

Variable message : Fault -> string.
Context {World : Type} `{Client World}.
Variable address : string.

(** The invariant carried to the handler's report. *)
Lemma history_report_invariant (Q R : Z -> list ActivityRecord -> Prop)
      (limit : Z) (s : Store World HistoryVars)
      (reported : string) (sentTxs : Z) (found : list ActivityRecord) :
  (forall b found, Q b found -> R b found) ->
  (forall b found block tx receipt timestamp,
      R b found ->
      (exists w, fst (getBlock b true w) = inr block) ->
      In tx (block_transactions block) ->
      involves_address address tx = true ->
      toISOString (block_timestamp block) = inr timestamp ->
      R b (found ++ [activity_record block tx receipt timestamp])) ->
  (forall b found, R b found -> Q (b - 1) found) ->
  fst (account_transaction_history message address limit s)
  = inr (HistoryReport reported sentTxs found) ->
  exists latestBlock k,
    fst (getBlockNumber (snd (getTransactionCount address (world s))))
    = inr latestBlock
    /\ (k <= 10)%nat
    /\ (Q latestBlock [] -> Q (latestBlock - Z.of_nat k) found).
Proof.
  intros Hscan Hpush Hstep.
  rewrite account_transaction_history_run. cbv zeta.
  destruct (getTransactionCount address (world s)) as [[e | n] w];
    cbn [fst snd]; [discriminate |].
  destruct (getBlockNumber w) as [[e | latestBlock] w2];
    cbn [fst snd]; [discriminate |].
  pose proof (history_loop_invariant address limit Q R Hscan Hpush Hstep blocksToSearch
                (mkStore w2
                   ((trace s ++ [GetTransactionCount address]) ++ [GetBlockNumber])
                   {| transactions := []; processed := ∅;
                      currentBlock := latestBlock |})) as Hkept.
  destruct (history_loop_run address limit blocksToSearch
              (mkStore w2
                 ((trace s ++ [GetTransactionCount address]) ++ [GetBlockNumber])
                 {| transactions := []; processed := ∅;
                    currentBlock := latestBlock |}))
    as (s' & events & Hrun & _ & Hcount & _ & Hblock & _).
  rewrite Hrun in Hkept |- *. cbn [snd locals currentBlock transactions] in *.
  intros [= _ _ <-].
  exists latestBlock, (block_fetches events).
  split_and!; [reflexivity | exact Hcount |].
  intros Hstart. rewrite <- Hblock. apply Hkept, Hstart.
Qed.

Lemma involved_record (block : Block) (tx : Transaction) (receipt : Receipt)
      (timestamp : Z) :
  involves_address address tx = true ->
  record_involves address (activity_record block tx receipt timestamp).
Proof.
  unfold involves_address, record_involves, formattedAddress.
  cbn [activity_record rec_from rec_to].
  intros Hinvolves. apply orb_true_iff in Hinvolves as [Hfrom | Hto].
  - left. now apply String.eqb_eq.
  - right. apply bool_decide_eq_true in Hto.
    destruct (tx_to tx) as [recipient|]; [| destruct (Js.truthy None); discriminate].
    destruct (Js.truthy (Some recipient)); [| discriminate].
    exists recipient. cbn in Hto. split; [reflexivity | congruence].
Qed.

(** X8: every record of a history report has the requested address as its
    sender or as its recipient, letter case aside; a contract creation is
    reported only when the address sent it. *)
Theorem history_records_involve_address
        (limit : Z) (s : Store World HistoryVars)
        (reported : string) (sentTxs : Z) (found : list ActivityRecord) :
  fst (account_transaction_history message address limit s)
  = inr (HistoryReport reported sentTxs found) ->
  reported = address
  /\ Forall (record_involves address) found
  /\ Forall (fun r => rec_to r = None ->
                      Js.toLowerCase (rec_from r) = Js.toLowerCase address)
            found.
Proof.
  intros Hreport.
  assert (Hname : reported = address).
  { revert Hreport. rewrite account_transaction_history_run. cbv zeta.
    destruct (fst (getTransactionCount address (world s))); [discriminate |].
    destruct (fst (getBlockNumber _)); [discriminate |].
    cbn [fst]. now intros [= <- _ _]. }
  destruct (history_report_invariant
              (fun _ found => Forall (record_involves address) found)
              (fun _ found => Forall (record_involves address) found)
              limit s reported sentTxs found)
    as (latestBlock & k & _ & _ & Hfound).
  - intros b known Hknown. exact Hknown.
  - intros b known block tx receipt timestamp Hknown _ _ Hinvolves _.
    apply Forall_app. split; [exact Hknown |].
    apply Forall_cons. split; [| apply Forall_nil_2].
    now apply involved_record.
  - intros b known Hknown. exact Hknown.
  - exact Hreport.
  - specialize (Hfound (Forall_nil_2 _)).
    split_and!; [exact Hname | exact Hfound |].
    eapply Forall_impl; [exact Hfound |].
    intros r [Hfrom | (recipient & Hto & _)] Hnone; [exact Hfrom | congruence].
Qed.

Lemma descending_snoc (l : list Z) (b : Z) :
  descending l -> Forall (fun n => b <= n) l -> descending (l ++ [b]).
Proof.
  intros Hsorted Hbound i j x y Hij Hi Hj.
  destruct (decide (j < length l)%nat) as [Hj_in | Hj_out].
  - rewrite lookup_app_l in Hi by lia. rewrite lookup_app_l in Hj by lia.
    exact (Hsorted i j x y Hij Hi Hj).
  - assert (Hy : y = b).
    { rewrite lookup_app_r in Hj by lia.
      destruct (j - length l)%nat as [|m]; cbn in Hj; [congruence | discriminate]. }
    subst y.
    destruct (decide (i < length l)%nat) as [Hi_in | Hi_out].
    + rewrite lookup_app_l in Hi by lia.
      rewrite Forall_forall in Hbound. apply Hbound.
      eapply list_elem_of_lookup_2, Hi.
    + rewrite lookup_app_r in Hi by lia.
      destruct (i - length l)%nat as [|m]; cbn in Hi; [| discriminate].
      injection Hi as <-. lia.
Qed.

(** X9: when the node numbers each block as it was asked for it and the
    head number is below 2^53 (where the [Number] stored in a record is the
    block number itself), the records of a report are listed from the newest
    block to the oldest, and each comes from one of the ten blocks ending at
    the head. *)
Theorem history_is_newest_first
        (limit : Z) (s : Store World HistoryVars) (latestBlock : Z)
        (reported : string) (sentTxs : Z) (found : list ActivityRecord) :
  answers_as_asked ->
  fst (getBlockNumber (snd (getTransactionCount address (world s))))
  = inr latestBlock ->
  0 <= latestBlock < 2 ^ 53 ->
  fst (account_transaction_history message address limit s)
  = inr (HistoryReport reported sentTxs found) ->
  descending (block_numbers found)
  /\ Forall (fun n => latestBlock - 10 < n <= latestBlock
                      /\ - 2 ^ 53 < n < 2 ^ 53)
            (block_numbers found).
Proof.
  intros Hnode Hhead Hsafe Hreport.
  destruct (history_report_invariant
              (fun b found =>
                 b <= latestBlock
                 /\ descending (block_numbers found)
                 /\ Forall (fun n => b < n <= latestBlock) (block_numbers found))
              (fun b found =>
                 b <= latestBlock
                 /\ descending (block_numbers found)
                 /\ Forall (fun n => b <= n <= latestBlock) (block_numbers found))
              limit s reported sentTxs found)
    as (latest' & k & Hhead' & Hk & Hfound).
  - intros b known (Hhigh & Hsorted & Hbound). split_and!; [lia | exact Hsorted |].
    eapply Forall_impl; [exact Hbound |]. cbn. intros n Hn. lia.
  - intros b known block tx receipt timestamp (Hhigh & Hsorted & Hbound)
           [w Hserved] _ _ _.
    apply Hnode in Hserved.
    unfold block_numbers. rewrite map_app. cbn [map activity_record rec_blockNumber].
    rewrite Hserved. split_and!.
    + exact Hhigh.
    + apply descending_snoc; [exact Hsorted |].
      eapply Forall_impl; [exact Hbound |]. cbn. intros n Hn. lia.
    + apply Forall_app. split; [exact Hbound |].
      apply Forall_cons. split; [lia | apply Forall_nil_2].
  - intros b known (Hhigh & Hsorted & Hbound). split_and!.
    + lia.
    + exact Hsorted.
    + eapply Forall_impl; [exact Hbound |]. cbn. intros n Hn. lia.
  - exact Hreport.
  - rewrite Hhead in Hhead'. injection Hhead' as <-.
    destruct Hfound as (_ & Hsorted & Hbound).
    { split_and!.
      - lia.
      - intros i j a b _ Hi. destruct i; discriminate Hi.
      - apply Forall_nil_2. }
    split; [exact Hsorted |].
    eapply Forall_impl; [exact Hbound |]. cbn. intros n Hn. lia.
Qed.

End HistoryReportFacts.

Section HistoryWalk.

Context {World : Type} `{Client World}.
Variable address : string.
Variable limit : Z.

Lemma quiet_requests (flag : bool) (events : list Event) :
  block_fetches events = 0%nat -> requested_blocks flag events = [].
Proof.
  unfold block_fetches, requested_blocks.
  induction events as [|e events IH]; [reflexivity |].
  destruct e; cbn; try exact IH.
  case_decide; [discriminate | congruence].
Qed.

(** The blocks the loop asks for: the pointer's block, then each next older
    one, always with the transactions. *)
Lemma history_loop_window (remaining : nat) (s : Store World HistoryVars) :
  exists k events,
    trace (snd (history_loop address limit remaining s)) = trace s ++ events
    /\ requested_blocks true events = block_window (currentBlock (locals s)) 0 k
    /\ requested_blocks false events = []
    /\ (k <= remaining)%nat
    /\ (k = remaining
        \/ limit <= Z.of_nat (length (transactions
                     (locals (snd (history_loop address limit remaining s)))))).
Proof.
  revert s. induction remaining as [|remaining IH]; intros s.
  - exists 0%nat, []. cbn. split_and!; auto. now rewrite app_nil_r.
  - cbn [history_loop]. unfold bind, get. cbn beta iota.
    destruct (Z.of_nat (length (transactions (locals s))) <? limit) eqn:Eroom.
    + destruct (history_iteration_step address limit s)
        as (s1 & -> & Hb1 & _ & (e1 & He1 & Hf1) & _).
      destruct (IH s1) as (k & e2 & He2 & Htrue & Hfalse & Hk & Hstop).
      exists (S k), (GetBlock (currentBlock (locals s)) true :: e1 ++ e2).
      split_and!.
      * rewrite He2, He1, <- app_assoc. reflexivity.
      * change (GetBlock (currentBlock (locals s)) true :: e1 ++ e2)
          with ([GetBlock (currentBlock (locals s)) true] ++ e1 ++ e2).
        rewrite !requested_blocks_app, (quiet_requests true e1 Hf1), Htrue.
        rewrite block_window_step, Hb1. cbn.
        f_equal; [lia |].
        unfold block_window. apply map_ext. intros j. lia.
      * change (GetBlock (currentBlock (locals s)) true :: e1 ++ e2)
          with ([GetBlock (currentBlock (locals s)) true] ++ e1 ++ e2).
        rewrite !requested_blocks_app, (quiet_requests false e1 Hf1), Hfalse.
        reflexivity.
      * lia.
      * destruct Hstop as [-> | Hfull]; [left; reflexivity | right; exact Hfull].
    + apply Z.ltb_ge in Eroom.
      exists 0%nat, []. cbn. split_and!; auto.
      * now rewrite app_nil_r.
      * lia.
Qed.

(** A block whose time cannot be printed leaves the records as they are. *)
Lemma process_transactions_unprintable (block : Block) (txs : list Transaction)
      (s : Store World HistoryVars) (e : Fault) :
  toISOString (block_timestamp block) = inl e ->
  locals (snd (process_transactions address limit block txs s)) = locals s.
Proof.
  intros Htime. revert s. induction txs as [|tx rest IH]; intros s;
    [reflexivity |].
  rewrite process_transactions_cons.
  destruct (bool_decide (tx_hash tx ∈ processed (locals s))
            || (limit <=? Z.of_nat (length (transactions (locals s)))));
    [apply IH |].
  destruct (involves_address address tx); [| apply IH].
  cbv zeta. rewrite Htime.
  destruct (fst (getTransactionReceipt (tx_hash tx) (world s))); reflexivity.
Qed.

(** X11: a block whose time stamp is outside the range of [Date] gives no
    record: the turn of the loop ends normally, nothing is added to the
    records or to the hashes seen, and the walk moves to the next older
    block. *)
Theorem unprintable_block_is_passed_over
        (s : Store World HistoryVars) (block : Block) (w : World) :
  getBlock (currentBlock (locals s)) true (world s) = (inr block, w) ->
  8640000000000000 < Z.abs (block_timestamp block * 1000) ->
  fst (history_iteration address limit s) = inr tt
  /\ locals (snd (history_iteration address limit s)) = step_back (locals s).
Proof.
  intros Hfetch Hrange.
  assert (Htime : toISOString (block_timestamp block) = inl RangeError).
  { unfold toISOString. cbv zeta.
    destruct (Z.leb_spec (Z.abs (block_timestamp block * 1000)) 8640000000000000);
      [lia | reflexivity]. }
  rewrite history_iteration_run, history_block_run. cbv zeta.
  rewrite Hfetch. cbn [fst snd].
  pose proof (process_transactions_unprintable block (block_transactions block)
                (mkStore w (trace s ++ [GetBlock (currentBlock (locals s)) true])
                         (locals s)) RangeError Htime) as Hkept.
  cbn [locals] in Hkept.
  destruct (process_transactions address limit block (block_transactions block) _)
    as [[e | []] s2]; cbn [fst snd locals] in *; now rewrite Hkept.
Qed.

End HistoryWalk.

Section HistoryWindow.

Variable message : Fault -> string.
Context {World : Type} `{Client World}.
Variable address : string.

(** X10: the history walk asks for the head block and then for each next
    older one, in this order and each exactly once, always with the
    transactions and also after a block that failed; it asks for at most ten
    blocks, and for fewer only when [limit] records are in hand. *)
Theorem history_window_is_contiguous
        (limit : Z) (s : Store World HistoryVars)
        (reported : string) (sentTxs : Z) (found : list ActivityRecord) :
  fst (account_transaction_history message address limit s)
  = inr (HistoryReport reported sentTxs found) ->
  exists latestBlock k events,
    fst (getBlockNumber (snd (getTransactionCount address (world s))))
    = inr latestBlock
    /\ trace (snd (account_transaction_history message address limit s))
       = trace s ++ events
    /\ requested_blocks true events = block_window latestBlock 0 k
    /\ requested_blocks false events = []
    /\ (k <= 10)%nat
    /\ (k = 10%nat \/ limit <= Z.of_nat (length found)).
Proof.
  rewrite account_transaction_history_run. cbv zeta.
  destruct (getTransactionCount address (world s)) as [[e | n] w];
    cbn [fst snd]; [discriminate |].
  destruct (getBlockNumber w) as [[e | latestBlock] w2];
    cbn [fst snd]; [discriminate |].
  destruct (history_loop_window address limit blocksToSearch
              (mkStore w2
                 ((trace s ++ [GetTransactionCount address]) ++ [GetBlockNumber])
                 {| transactions := []; processed := ∅;
                    currentBlock := latestBlock |}))
    as (k & events & Htrace & Htrue & Hfalse & Hk & Hstop).
  set (walked := snd (history_loop address limit blocksToSearch _)) in *.
  cbn [trace locals currentBlock] in Htrace, Htrue.
  intros [= _ _ <-].
  exists latestBlock, k, ([GetTransactionCount address; GetBlockNumber] ++ events).
  split_and!.
  - reflexivity.
  - rewrite Htrace, <- !app_assoc. reflexivity.
  - rewrite requested_blocks_app, Htrue. reflexivity.
  - rewrite requested_blocks_app, Hfalse. reflexivity.
  - exact Hk.
  - exact Hstop.
Qed.

End HistoryWindow.

Lemma sample_answers_as_asked : @answers_as_asked Z Sample.client.
Proof.
  intros n flag w block. cbn. unfold Sample.block_at.
  destruct (Z.eqb_spec n 100) as [-> | _]; [now intros [= <-] |].
  destruct (Z.eqb_spec n 98) as [-> | _]; [now intros [= <-] |].
  destruct (Z.eqb_spec n 97) as [-> | _]; [now intros [= <-] |].
  discriminate.
Qed.

Lemma history_records_involve_address_witness :
  Sample.address = Sample.address
  /\ Forall (record_involves Sample.address) Sample.history_found
  /\ Forall (fun r => rec_to r = None ->
                      Js.toLowerCase (rec_from r)
                      = Js.toLowerCase Sample.address)
            Sample.history_found.
Proof.
  apply (history_records_involve_address Sample.message Sample.address 10
           (Sample.start 0 Sample.no_history) Sample.address 3).
  vm_compute. reflexivity.
Defined.

Lemma history_is_newest_first_witness :
  descending (block_numbers Sample.history_found)
  /\ Forall (fun n => 100 - 10 < n <= 100 /\ - 2 ^ 53 < n < 2 ^ 53)
            (block_numbers Sample.history_found).
Proof.
  apply (history_is_newest_first Sample.message Sample.address 10
           (Sample.start 0 Sample.no_history) 100 Sample.address 3).
  - exact sample_answers_as_asked.
  - reflexivity.
  - lia.
  - vm_compute. reflexivity.
Defined.

Lemma history_window_is_contiguous_witness :
  exists latestBlock k events,
    fst (getBlockNumber
           (snd (getTransactionCount Sample.address
                   (world (Sample.start 0 Sample.no_history)))))
    = inr latestBlock
    /\ trace (snd (account_transaction_history Sample.message Sample.address 10
                     (Sample.start 0 Sample.no_history)))
       = trace (Sample.start 0 Sample.no_history) ++ events
    /\ requested_blocks true events = block_window latestBlock 0 k
    /\ requested_blocks false events = []
    /\ (k <= 10)%nat
    /\ (k = 10%nat \/ 10 <= Z.of_nat (length Sample.history_found)).
Proof.
  apply (history_window_is_contiguous Sample.message Sample.address 10
           (Sample.start 0 Sample.no_history) Sample.address 3).
  vm_compute. reflexivity.
Defined.

Lemma unprintable_block_is_passed_over_witness :
  fst (history_iteration Sample.address 10 Distant.start) = inr tt
  /\ locals (snd (history_iteration Sample.address 10 Distant.start))
     = step_back (locals Distant.start).
Proof.
  apply (unprintable_block_is_passed_over Sample.address 10 Distant.start
           Distant.block tt).
  - reflexivity.
  - vm_compute. reflexivity.
Defined.

(** ** account-transaction-history: nothing that matches is left out *)

Section ScanCompleteness.

Context {World : Type} `{Client World}.
Variable address : string.
Variable limit : Z.

Lemma hashes_app (xs ys : list ActivityRecord) :
  hashes (xs ++ ys) = hashes xs ++ hashes ys.
Proof. unfold hashes. apply map_app. Qed.

(** What a scan has recorded stays recorded, and a quota once reached stays
    reached. *)
Lemma scan_keeps_findings (block : Block) (txs : list Transaction)
      (s : Store World HistoryVars) (h : string) :
  h ∈ hashes (transactions (locals s))
  \/ limit <= Z.of_nat (length (transactions (locals s))) ->
  h ∈ hashes (transactions
                (locals (snd (process_transactions address limit block txs s))))
  \/ limit <= Z.of_nat (length (transactions
                (locals (snd (process_transactions address limit block txs s))))).
Proof.
  destruct (process_transactions_extends address limit block txs s)
    as (_ & [more Hmore] & _).
  rewrite Hmore, hashes_app, length_app.
  intros [Hin | Hfull]; [left | right; lia].
  apply elem_of_app. left. exact Hin.
Qed.

(** X18: when the scan of a block ends without a fault, every transaction of
    the block that involves the address is among the records, unless the
    quota of [limit] records was reached; and every hash marked as processed
    belongs to a record. *)
Theorem scan_leaves_nothing_out
        (block : Block) (txs : list Transaction) (s : Store World HistoryVars) :
  (forall h, h ∈ processed (locals s) -> h ∈ hashes (transactions (locals s))) ->
  fst (process_transactions address limit block txs s) = inr tt ->
  (forall h,
      h ∈ processed (locals (snd (process_transactions address limit block txs s))) ->
      h ∈ hashes (transactions
                    (locals (snd (process_transactions address limit block txs s)))))
  /\ forall tx,
      In tx txs ->
      involves_address address tx = true ->
      tx_hash tx ∈ hashes (transactions
                    (locals (snd (process_transactions address limit block txs s))))
      \/ limit <= Z.of_nat (length (transactions
                    (locals (snd (process_transactions address limit block txs s))))).
Proof.
  revert s. induction txs as [|tx rest IH]; intros s Hmarked Hdone.
  - split; [exact Hmarked | intros tx []].
  - revert Hdone. rewrite process_transactions_cons.
    destruct (bool_decide (tx_hash tx ∈ processed (locals s))) eqn:Eseen.
    { cbn [orb]. intros Hdone. destruct (IH s Hmarked Hdone) as [Hkept Hrest].
      split; [exact Hkept |].
      intros tx' [<- | Hin] Hinvolves; [| now apply Hrest].
      apply scan_keeps_findings. left.
      apply Hmarked. now apply bool_decide_eq_true in Eseen. }
    destruct (limit <=? Z.of_nat (length (transactions (locals s)))) eqn:Efull.
    { cbn [orb]. intros Hdone. destruct (IH s Hmarked Hdone) as [Hkept Hrest].
      split; [exact Hkept |].
      intros tx' [<- | Hin] Hinvolves; [| now apply Hrest].
      apply scan_keeps_findings. right. now apply Z.leb_le. }
    cbn [orb].
    destruct (involves_address address tx) eqn:Einvolves.
    + cbv zeta.
      destruct (getTransactionReceipt (tx_hash tx) (world s)) as [[e | receipt] w];
        cbn [fst snd]; [discriminate |].
      destruct (toISOString (block_timestamp block)) as [e | timestamp];
        [discriminate |].
      match goal with
      | |- fst (process_transactions _ _ _ _ ?pushed) = _ -> _ =>
          set (s1 := pushed)
      end.
      intros Hdone.
      assert (Hmarked1 : forall h,
                 h ∈ processed (locals s1) ->
                 h ∈ hashes (transactions (locals s1))).
      { unfold s1. cbn [locals processed transactions]. intros h Hh.
        rewrite hashes_app. apply elem_of_app.
        apply elem_of_union in Hh as [Hh | Hh].
        - right. apply elem_of_singleton in Hh. subst h.
          apply list_elem_of_singleton. reflexivity.
        - left. apply Hmarked, Hh. }
      destruct (IH s1 Hmarked1 Hdone) as [Hkept Hrest].
      split; [exact Hkept |].
      intros tx' [<- | Hin] Hinvolves; [| now apply Hrest].
      apply scan_keeps_findings. left. unfold s1. cbn [locals transactions].
      rewrite hashes_app. apply elem_of_app. right.
      apply list_elem_of_singleton. reflexivity.
    + intros Hdone. destruct (IH s Hmarked Hdone) as [Hkept Hrest].
      split; [exact Hkept |].
      intros tx' [<- | Hin] Hinvolves; [congruence | now apply Hrest].
Qed.

End ScanCompleteness.

(** ** Value texts *)

(** X17: the branch that prints a zero value apart changes nothing: in the
    details report and in every history record the value text is what
    [formatUnits] gives with 18 decimals, for zero as for any other value. *)
Theorem value_text_is_uniform :
  (forall hash transaction receipt timestamp,
      det_value (details_report hash transaction receipt timestamp)
      = formatUnits (tx_value transaction) 18)
  /\ (forall block tx receipt timestamp,
         rec_value (activity_record block tx receipt timestamp)
         = formatUnits (tx_value tx) 18 +:+ " MON").
Proof.
  split.
  - intros hash transaction receipt timestamp.
    unfold details_report. cbv zeta. cbn [det_value].
    destruct (Z.eqb_spec (tx_value transaction) 0) as [-> | _]; reflexivity.
  - intros block tx receipt timestamp. cbn [activity_record rec_value].
    destruct (Z.eqb_spec (tx_value tx) 0) as [-> | _]; reflexivity.
Qed.

Lemma scan_leaves_nothing_out_witness :
  (forall h,
      h ∈ processed (locals (snd (process_transactions Sample.address 10
                                    sample_head (block_transactions sample_head)
                                    (Sample.start 0 Sample.no_history)))) ->
      h ∈ hashes (transactions
                    (locals (snd (process_transactions Sample.address 10
                                    sample_head (block_transactions sample_head)
                                    (Sample.start 0 Sample.no_history))))))
  /\ forall tx,
      In tx (block_transactions sample_head) ->
      involves_address Sample.address tx = true ->
      tx_hash tx ∈ hashes (transactions
                    (locals (snd (process_transactions Sample.address 10
                                    sample_head (block_transactions sample_head)
                                    (Sample.start 0 Sample.no_history)))))
      \/ 10 <= Z.of_nat (length (transactions
                    (locals (snd (process_transactions Sample.address 10
                                    sample_head (block_transactions sample_head)
                                    (Sample.start 0 Sample.no_history)))))).
Proof.
  apply (scan_leaves_nothing_out Sample.address 10 sample_head
           (block_transactions sample_head) (Sample.start 0 Sample.no_history)).
  - intros h Hh. cbn in Hh. apply elem_of_empty in Hh. contradiction.
  - vm_compute. reflexivity.
Defined.
